(** * tvd: the Simpsons-TV daemon (rootfs_pi/tvd.c)

    A shallow embedding of the daemon's control logic: the playback
    supervisor (start / stop / pause / resume of the ffmpeg process group),
    the static-noise transition, the power state machine, the child reaper
    and the tap / double-tap recogniser of the main loop.

    The C program keeps its state in file-level globals and talks to the
    operating system through system calls.  Here the globals are the record
    [Globals], the operating system is the record [Env] of answers (one
    answer per query, indexed by the number of queries made so far), and
    every system call that acts on the outside world appends an [event] to a
    chronological trace.  C functions become computations in the state monad
    [M] over [World]. *)

From Stdlib Require Import ZArith List String Ascii Bool Lia.
From Equations Require Import Equations.
Import ListNotations.
Open Scope string_scope.
Open Scope list_scope.
Open Scope Z_scope.

(** ** Constants (tvd.c, lines 25-43) *)

Definition VIDEO_DIR : string := "/mnt/videos".
Definition FBDEV : string := "/dev/fb0".
Definition AUDIO_DEV : string := "hw:0,0".
Definition TOUCH_DEV : string := "/dev/input/event0".

Definition STATIC_MS : Z := 250.
Definition STATIC_FRAMES : nat := 3.
Definition HOLD_MS : Z := 1200.
Definition DOUBLE_TAP_WINDOW_MS : Z := 320.
Definition SWITCH_POLL_MS : Z := 40.

(** From <linux/input.h>: the event type and key code the daemon filters on. *)
Definition EV_KEY : Z := 1.
Definition BTN_TOUCH : Z := 330.

(** ** Data model *)

(** [typedef enum { ST_OFF=0, ST_PLAYING=1, ST_PAUSED=2 } tv_state_t;] *)
Inductive tv_state_t : Type := ST_OFF | ST_PLAYING | ST_PAUSED.

Definition tv_state_eqb (a b : tv_state_t) : bool :=
  match a, b with
  | ST_OFF, ST_OFF | ST_PLAYING, ST_PLAYING | ST_PAUSED, ST_PAUSED => true
  | _, _ => false
  end.

(** The signals the daemon sends. *)
Inductive signal : Type := SIGTERM | SIGKILL | SIGSTOP | SIGCONT.

(** What the daemon does to the outside world, in the order it does it.
    [EvKill target sig] is [kill(target, sig)]; a negative target addresses
    a process group.  [EvWaitpid pid] is [waitpid(pid, &st, WNOHANG)].
    [EvSleep ms] is [ms_sleep(ms)].  [EvLog msg] is a [log_console] call.
    [EvClose fd] is the [close] of the touch device when [main] ends. *)
Inductive event : Type :=
| EvKill (target : Z) (sig : signal)
| EvWaitpid (pid : Z)
| EvSleep (ms : Z)
| EvSpawnPlayer (video : string) (pid : Z)
| EvSetpgid (pid pgid : Z)
| EvSpawnNoise (pid : Z)
| EvFbWrite (nbytes : Z)
| EvFbClear
| EvBacklight (on : bool)
| EvLog (msg : string)
| EvClose (fd : Z).

(** [struct input_event], the fields the daemon reads. *)
Record input_event : Type := mkEvent {
  ev_type : Z;
  ev_code : Z;
  ev_value : Z
}.

(** [touch_state_t] (lines 310-313). *)
Record touch_state_t : Type := mkTouch {
  touching : bool;
  t_down_ms : Z
}.

(** The file-level globals: [ffmpeg_pid], [ffmpeg_paused] (lines 195-196),
    [pending_single], [pending_deadline_ms] (lines 321-322) and [state]
    (line 336). *)
Record Globals : Type := mkGlobals {
  ffmpeg_pid : Z;
  ffmpeg_paused : bool;
  pending_single : bool;
  pending_deadline_ms : Z;
  state : tv_state_t
}.

(** The answers of the operating system.  Each query of the daemon takes
    the answer at the current query number and increments that number, so
    every query can be answered independently of all others.
    - [env_kill0]: does [kill(ffmpeg_pid, 0)] return 0;
    - [env_fork]: what [fork()] returns in the parent;
    - [env_gpio_line]: the line [fgets] stores from the output of
      [raspi-gpio get 26], [None] when [popen] or [fgets] fails;
    - [env_video_line]: the same for the output of the find/awk pipeline of
      [pick_random_video];
    - [env_alloc]: does [malloc] / [strdup] succeed;
    - [env_open]: the descriptor [open] returns;
    - [env_read]: what [read] on /dev/urandom returns;
    - [env_reaped]: the values successive [waitpid(-1, &st, WNOHANG)] calls
      return during one run of the reaper loop. *)
Record Env : Type := mkEnv {
  env_kill0 : nat -> bool;
  env_fork : nat -> Z;
  env_gpio_line : nat -> option string;
  env_video_line : nat -> option string;
  env_alloc : nat -> bool;
  env_open : nat -> Z;
  env_read : nat -> Z;
  env_reaped : nat -> list Z
}.

(** The daemon's globals together with the world around it: the monotonic
    clock in milliseconds, the trace of events so far, the touch events not
    read yet (each with the clock value from which [read] can return it),
    and the environment with its query counter. *)
Record World : Type := mkWorld {
  globals : Globals;
  now : Z;
  trace : list event;
  inq : list (Z * input_event);
  nq : nat;
  env : Env
}.

(** ** The state monad *)

Definition M (A : Type) : Type := World -> A * World.

Definition ret {A : Type} (a : A) : M A := fun w => (a, w).

Definition bind {A B : Type} (c : M A) (k : A -> M B) : M B :=
  fun w => let (a, w') := c w in k a w'.

Declare Scope tvd_scope.
Delimit Scope tvd_scope with tvd.
Notation "x <- c ;; k" := (bind c (fun x => k))
  (at level 61, c at next level, right associativity) : tvd_scope.
Notation "c ;; k" := (bind c (fun _ => k))
  (at level 61, right associativity) : tvd_scope.
Open Scope tvd_scope.

Definition exec {A : Type} (c : M A) (w : World) : World := snd (c w).
Definition eval {A : Type} (c : M A) (w : World) : A := fst (c w).

Definition get_globals : M Globals := fun w => (globals w, w).

Definition put_globals (g : Globals) : M unit :=
  fun w => (tt, mkWorld g (now w) (trace w) (inq w) (nq w) (env w)).

Definition emit (e : event) : M unit :=
  fun w => (tt, mkWorld (globals w) (now w) (trace w ++ [e]) (inq w) (nq w) (env w)).

(** One query to the environment. *)
Definition ask {A : Type} (f : Env -> nat -> A) : M A :=
  fun w => (f (env w) (nq w),
            mkWorld (globals w) (now w) (trace w) (inq w) (S (nq w)) (env w)).

Definition set_ffmpeg (pid : Z) (paused : bool) : M unit :=
  g <- get_globals ;;
  put_globals (mkGlobals pid paused (pending_single g) (pending_deadline_ms g) (state g)).

Definition set_paused (paused : bool) : M unit :=
  g <- get_globals ;;
  set_ffmpeg (ffmpeg_pid g) paused.

Definition set_pending (p : bool) (deadline : Z) : M unit :=
  g <- get_globals ;;
  put_globals (mkGlobals (ffmpeg_pid g) (ffmpeg_paused g) p deadline (state g)).

Definition set_state (s : tv_state_t) : M unit :=
  g <- get_globals ;;
  put_globals (mkGlobals (ffmpeg_pid g) (ffmpeg_paused g)
                 (pending_single g) (pending_deadline_ms g) s).

(** ** Time and logging (lines 46-76) *)

Definition now_ms_monotonic : M Z := fun w => (now w, w).

(** [ms_sleep]: the clock advances by the time slept.  Sleeping is the only
    way the clock advances here: system calls and computation take no time,
    which is the fastest the loop can run. *)
Definition ms_sleep (ms : Z) : M unit :=
  fun w => (tt, mkWorld (globals w) (now w + ms) (trace w ++ [EvSleep ms])
                  (inq w) (nq w) (env w)).

Definition log_console (msg : string) : M unit := emit (EvLog msg).

(** ** Backlight and frame buffer (lines 87-109) *)

Definition backlight_on : M unit := emit (EvBacklight true).
Definition backlight_off : M unit := emit (EvBacklight false).
Definition fb_clear : M unit := emit EvFbClear.

(** ** Static noise (lines 112-173) *)

(** [start_static_audio]: [return (pid > 0) ? pid : -1;] *)
Definition start_static_audio : M Z :=
  pid <- ask env_fork ;;
  if 0 <? pid then (emit (EvSpawnNoise pid) ;; ret pid) else ret (-1).

(** The frame loop of [static_noise_av] (lines 152-158). *)
Fixpoint static_frames (n : nat) : M unit :=
  match n with
  | O => ret tt
  | S n' =>
      r <- ask env_read ;;
      if r <=? 0 then ret tt
      else (emit (EvFbWrite r) ;; ms_sleep 20 ;; static_frames n')
  end.

Definition static_noise_av : M unit :=
  apid <- start_static_audio ;;
  fbur <- ask env_open ;;
  fb <- ask env_open ;;
  (if (0 <=? fbur) && (0 <=? fb) then
     buf <- ask env_alloc ;;
     if buf then static_frames STATIC_FRAMES else ret tt
   else ret tt) ;;
  ms_sleep STATIC_MS ;;
  if 0 <? apid then emit (EvWaitpid apid) else ret tt.

(** ** ffmpeg control (lines 195-236) *)

(** [return (ffmpeg_pid > 0 && kill(ffmpeg_pid, 0) == 0);] *)
Definition ffmpeg_alive : M bool :=
  g <- get_globals ;;
  if 0 <? ffmpeg_pid g then ask env_kill0 else ret false.

(** The polling loop of [stop_playback] (lines 209-212). *)
Fixpoint stop_poll (n : nat) : M unit :=
  match n with
  | O => ret tt
  | S n' =>
      a <- ffmpeg_alive ;;
      if negb a then ret tt else (ms_sleep 30 ;; stop_poll n')
  end.

Definition stop_playback : M unit :=
  g <- get_globals ;;
  if ffmpeg_pid g <=? 0 then ret tt
  else
    emit (EvKill (- ffmpeg_pid g) SIGTERM) ;;
    stop_poll 25 ;;
    emit (EvKill (- ffmpeg_pid g) SIGKILL) ;;
    emit (EvWaitpid (ffmpeg_pid g)) ;;
    set_ffmpeg (-1) false.

Definition pause_ffmpeg : M unit :=
  a <- ffmpeg_alive ;;
  if negb a then ret tt
  else
    g <- get_globals ;;
    emit (EvKill (- ffmpeg_pid g) SIGSTOP) ;;
    set_paused true.

Definition resume_ffmpeg : M unit :=
  a <- ffmpeg_alive ;;
  if negb a then ret tt
  else
    g <- get_globals ;;
    emit (EvKill (- ffmpeg_pid g) SIGCONT) ;;
    set_paused false.

(** ** Choosing and starting a video (lines 238-307) *)

Definition is_eol (c : ascii) : bool :=
  (Ascii.eqb c "010"%char || Ascii.eqb c "013"%char)%bool.

(** [while (len && (line[len-1] == '\n' || line[len-1] == '\r')) line[--len] = 0;] *)
Fixpoint strip_eol (s : string) : string :=
  match s with
  | EmptyString => EmptyString
  | String c s' =>
      match strip_eol s' with
      | EmptyString => if is_eol c then EmptyString else String c EmptyString
      | r => String c r
      end
  end.

Definition pick_random_video : M (option string) :=
  l <- ask env_video_line ;;
  match l with
  | None => ret None
  | Some line =>
      match strip_eol line with
      | EmptyString => ret None
      | v =>
          ok <- ask env_alloc ;;
          ret (if ok then Some v else None)
      end
  end.

Definition start_playback : M unit :=
  stop_playback ;;
  v <- pick_random_video ;;
  match v with
  | None => log_console ("no videos found in " ++ VIDEO_DIR)%string
  | Some v =>
      log_console ("play: " ++ v)%string ;;
      pid <- ask env_fork ;;
      if 0 <? pid then
        emit (EvSpawnPlayer v pid) ;;
        emit (EvSetpgid pid pid) ;;
        set_ffmpeg pid false
      else ret tt
  end.

(** ** Switch (lines 180-192) *)

(** [strstr(line, "level=1") != NULL] *)
Definition has_level1 (line : string) : bool :=
  match String.index 0 "level=1" line with
  | Some _ => true
  | None => false
  end.

Definition switch_is_on : M bool :=
  l <- ask env_gpio_line ;;
  match l with
  | None => ret false
  | Some line => ret (has_level1 line)
  end.

(** ** Tap scheduling (lines 321-332) *)

Definition schedule_single_tap : M unit :=
  t <- now_ms_monotonic ;;
  set_pending true (t + DOUBLE_TAP_WINDOW_MS).

Definition cancel_single_tap : M unit := set_pending false 0.

(** ** The power state machine (lines 338-377) *)

Definition do_power_off : M unit :=
  stop_playback ;;
  fb_clear ;;
  backlight_off ;;
  set_state ST_OFF ;;
  cancel_single_tap ;;
  log_console "power OFF".

Definition do_power_on : M unit :=
  backlight_on ;;
  fb_clear ;;
  start_playback ;;
  set_state ST_PLAYING ;;
  cancel_single_tap ;;
  log_console "power ON".

Definition do_pause_toggle : M unit :=
  g <- get_globals ;;
  match state g with
  | ST_PLAYING => pause_ffmpeg ;; set_state ST_PAUSED ;; log_console "pause"
  | ST_PAUSED => resume_ffmpeg ;; set_state ST_PLAYING ;; log_console "resume"
  | ST_OFF => ret tt
  end.

Definition do_next_episode : M unit :=
  g <- get_globals ;;
  if negb (tv_state_eqb (state g) ST_PLAYING) then ret tt
  else
    stop_playback ;;
    static_noise_av ;;
    start_playback ;;
    set_state ST_PLAYING ;;
    log_console "next".

(** ** The child reaper (lines 384-401) *)

(** The body of the reaper loop for one reaped child [p]. *)
Definition reap_one (p : Z) : M unit :=
  g <- get_globals ;;
  if p =? ffmpeg_pid g then
    set_ffmpeg (-1) false ;;
    if negb (tv_state_eqb (state g) ST_OFF) then
      if tv_state_eqb (state g) ST_PLAYING then
        log_console "ffmpeg died, restarting" ;; start_playback
      else ret tt
    else ret tt
  else ret tt.

(** [while ((p = waitpid(-1, &st, WNOHANG)) > 0) ...] over the values
    [waitpid] returns; the loop stops at the first that is not positive. *)
Fixpoint reap_loop (ps : list Z) : M unit :=
  match ps with
  | [] => ret tt
  | p :: ps' => if 0 <? p then (reap_one p ;; reap_loop ps') else ret tt
  end.

Definition reap_children : M unit :=
  ps <- ask env_reaped ;;
  reap_loop ps.

(** ** The main loop (lines 403-490) *)

(** The release branch of the touch loop (lines 461-467). *)
Definition on_release : M unit :=
  g <- get_globals ;;
  if negb (pending_single g) then schedule_single_tap
  else (cancel_single_tap ;; do_next_episode).

(** The body of the touch loop for one event read (lines 450-472). *)
Definition handle_event (ev : input_event) (ts : touch_state_t) : M touch_state_t :=
  if (ev_type ev =? EV_KEY) && (ev_code ev =? BTN_TOUCH) then
    if ev_value ev =? 1 then
      t <- now_ms_monotonic ;;
      ret (mkTouch true t)
    else if ev_value ev =? 0 then
      t_up <- now_ms_monotonic ;;
      let dt := t_up - t_down_ms ts in
      on_release ;;
      ret (mkTouch false 0)
    else ret ts
  else ret ts.

(** [while (read(tfd, &ev, sizeof(ev)) == sizeof(ev)) ...]: [read] returns
    the oldest unread event once the clock has reached its arrival time, and
    fails otherwise.  The function returns the events left unread. *)
Fixpoint touch_drain (q : list (Z * input_event)) (ts : touch_state_t)
  : M (touch_state_t * list (Z * input_event)) :=
  match q with
  | [] => ret (ts, [])
  | (t, ev) :: q' =>
      cur <- now_ms_monotonic ;;
      if t <=? cur then (ts' <- handle_event ev ts ;; touch_drain q' ts')
      else ret (ts, q)
  end.

Definition set_inq (q : list (Z * input_event)) : M unit :=
  fun w => (tt, mkWorld (globals w) (now w) (trace w) q (nq w) (env w)).

Definition touch_read (ts : touch_state_t) : M touch_state_t :=
  q <- (fun w => (inq w, w)) ;;
  r <- touch_drain q ts ;;
  set_inq (snd r) ;;
  ret (fst r).

(** The variables local to [main]. *)
Record Loop : Type := mkLoop {
  tfd : Z;
  ts : touch_state_t;
  last_switch_poll : Z
}.

(** Step 1 of the loop body: the switch poll (lines 435-444). *)
Definition switch_poll (cur : Z) (lp : Loop) : M Loop :=
  if cur - last_switch_poll lp >=? SWITCH_POLL_MS then
    cur_on <- switch_is_on ;;
    g <- get_globals ;;
    (if negb cur_on && negb (tv_state_eqb (state g) ST_OFF) then do_power_off
     else if cur_on && tv_state_eqb (state g) ST_OFF then do_power_on
     else ret tt) ;;
    ret (mkLoop (tfd lp) (ts lp) cur)
  else ret lp.

(** Step 2: the touch read, only while not OFF (lines 447-474). *)
Definition touch_step (lp : Loop) : M Loop :=
  g <- get_globals ;;
  if (0 <=? tfd lp) && negb (tv_state_eqb (state g) ST_OFF) then
    ts' <- touch_read (ts lp) ;;
    ret (mkLoop (tfd lp) ts' (last_switch_poll lp))
  else ret lp.

(** Step 3: the expiry of the pending single tap (lines 477-480). *)
Definition expire_step : M unit :=
  g <- get_globals ;;
  t <- now_ms_monotonic ;;
  if pending_single g && (t >=? pending_deadline_ms g) then
    cancel_single_tap ;; do_pause_toggle
  else ret tt.

(** One iteration of [while (!g_stop)]. *)
Definition tick (lp : Loop) : M Loop :=
  cur <- now_ms_monotonic ;;
  reap_children ;;
  lp1 <- switch_poll cur lp ;;
  lp2 <- touch_step lp1 ;;
  expire_step ;;
  ms_sleep 10 ;;
  ret lp2.

Fixpoint ticks (n : nat) (lp : Loop) : M Loop :=
  match n with
  | O => ret lp
  | S n' => lp' <- tick lp ;; ticks n' lp'
  end.

(** [main] up to the loop: the touch device is opened, the initial power
    state is applied and the loop variables are initialised.  (The signal
    handlers and the pull-up command of [switch_init] touch nothing the
    model tracks; the logged message leaves out the [strerror] text.) *)
Definition main_init : M Loop :=
  fd <- ask env_open ;;
  (if fd <? 0 then log_console ("ERROR opening " ++ TOUCH_DEV)%string else ret tt) ;;
  on <- switch_is_on ;;
  (if on then do_power_on else do_power_off) ;;
  ret (mkLoop fd (mkTouch false 0) 0).

(** [main] when the stop flag is seen after [n] iterations. *)
Definition main (n : nat) : M Z :=
  lp <- main_init ;;
  lp' <- ticks n lp ;;
  stop_playback ;;
  fb_clear ;;
  (if 0 <=? tfd lp' then emit (EvClose (tfd lp')) else ret tt) ;;
  ret 0.

(** The globals as the program starts, and a world around them. *)
Definition globals0 : Globals := mkGlobals (-1) false false 0 ST_OFF.

Definition world0 (e : Env) (q : list (Z * input_event)) : World :=
  mkWorld globals0 0 [] q O e.

(** ** Finer models of the helpers *)

(** [ms_sleep] splits its argument into a [timespec] (lines 54-55); C
    division and remainder truncate towards zero. *)
Definition ms_to_timespec (ms : Z) : Z * Z :=
  (Z.quot ms 1000, Z.rem ms 1000 * 1000000).

(** [now_ms_monotonic] turns a [timespec] into milliseconds (line 49). *)
Definition timespec_to_ms (ts : Z * Z) : Z :=
  fst ts * 1000 + Z.quot (snd ts) 1000000.

Definition FB_STRIDE : Z := 2560.
Definition FB_H : Z := 480.


(** * Vocabulary of the statements *)

(** ** Traces and frames *)

(** Events that are no part of a pause / resume toggle. *)
Definition quiet (e : event) : bool :=
  match e with
  | EvKill _ SIGSTOP | EvKill _ SIGCONT => false
  | EvLog m => negb (String.eqb m "pause") && negb (String.eqb m "resume")
  | _ => true
  end.

(** [frame w w']: going from [w] to [w'] left the environment, the unread
    touch events, the pending tap and the power state alone, let no time run
    backwards and added only [quiet] events to the trace. *)
Record frame (w w' : World) : Prop := mkFrame {
  fr_env : env w' = env w;
  fr_inq : inq w' = inq w;
  fr_pending : pending_single (globals w') = pending_single (globals w);
  fr_deadline : pending_deadline_ms (globals w') = pending_deadline_ms (globals w);
  fr_state : state (globals w') = state (globals w);
  fr_now : now w <= now w';
  fr_trace : exists d, trace w' = trace w ++ d /\ forallb quiet d = true
}.

(** The computation [c] respects [frame] from every world. *)
Definition framed {A : Type} (c : M A) : Prop := forall w, frame w (exec c w).

(** How often the polling loop of [stop_playback] sleeps: the number of
    leading "alive" answers, at most [n]. *)
Fixpoint polls (alive : nat -> bool) (n k : nat) : nat :=
  match n with
  | O => O
  | S n' => if alive k then S (polls alive n' (S k)) else O
  end.

(** ** Concrete environments and worlds *)

(** The newline that ends a line read by [fgets]. *)
Definition nl : string := String "010"%char EmptyString.

(** An environment in which the switch is on, the library holds ep1.mp4,
    the k-th query answered by [fork] returns 100 + k, every [open] and
    allocation succeeds, every [read] fills a frame and no child is ever
    reaped; [alive] answers the liveness probes. *)
Definition env_demo (alive : nat -> bool) : Env :=
  mkEnv alive (fun k => 100 + Z.of_nat k)
    (fun _ => Some "GPIO 26: level=1 fsel=0 func=INPUT")
    (fun _ => Some ("/mnt/videos/ep1.mp4" ++ nl)%string)
    (fun _ => true) (fun _ => 3) (fun _ => 1228800) (fun _ => []).

(** The same with an empty media library. *)
Definition env_empty : Env :=
  mkEnv (fun _ => true) (fun k => 100 + Z.of_nat k)
    (fun _ => Some "GPIO 26: level=1 fsel=0 func=INPUT")
    (fun _ => None)
    (fun _ => true) (fun _ => 3) (fun _ => 1228800) (fun _ => []).

(** The same as [env_demo] where the reaper finds the children 57 and 100
    dead, in this order. *)
Definition env_crash : Env :=
  mkEnv (fun _ => true) (fun k => 100 + Z.of_nat k)
    (fun _ => Some "GPIO 26: level=1 fsel=0 func=INPUT")
    (fun _ => Some ("/mnt/videos/ep1.mp4" ++ nl)%string)
    (fun _ => true) (fun _ => 3) (fun _ => 1228800) (fun _ => [57; 100]).

(** The reaper finds the child 100 dead, and the media library is empty. *)
Definition env_crash_empty : Env :=
  mkEnv (fun _ => true) (fun k => 100 + Z.of_nat k)
    (fun _ => Some "GPIO 26: level=1 fsel=0 func=INPUT")
    (fun _ => None)
    (fun _ => true) (fun _ => 3) (fun _ => 1228800) (fun _ => [100]).

(** The same as [env_demo] with no probe finding the player alive, where
    the fifth query, the [fork] of the noise process of the first
    next-episode after a power-on, fails. *)
Definition env_noise_fails : Env :=
  mkEnv (fun _ => false)
    (fun k => if Nat.eqb k 4 then -1 else 100 + Z.of_nat k)
    (fun _ => Some "GPIO 26: level=1 fsel=0 func=INPUT")
    (fun _ => Some ("/mnt/videos/ep1.mp4" ++ nl)%string)
    (fun _ => true) (fun _ => 3) (fun _ => 1228800) (fun _ => []).

(** The player 100 is tracked in state [st], and is about to be reaped. *)
Definition world_crash (st : tv_state_t) : World :=
  mkWorld (mkGlobals 100 false false 0 st) 5000 [] [] O env_crash.

(** PLAYING, with the player 100 tracked and not marked paused. *)
Definition world_playing (alive : nat -> bool) : World :=
  mkWorld (mkGlobals 100 false false 0 ST_PLAYING) 5000 [] [] O (env_demo alive).

(** ** Operations of the controller *)


(** The transitions of the controller; [OpReap p] is one pass of the
    reaper loop in which [waitpid] returned [p]. *)
Inductive Op : Type :=
| OpPowerOn
| OpPowerOff
| OpPauseToggle
| OpNextEpisode
| OpReap (p : Z).

Definition run_op (o : Op) : M unit :=
  match o with
  | OpPowerOn => do_power_on
  | OpPowerOff => do_power_off
  | OpPauseToggle => do_pause_toggle
  | OpNextEpisode => do_next_episode
  | OpReap p => reap_loop [p]
  end.

(** A sequence of operations, first to last. *)
Fixpoint run_ops (ops : list Op) : M unit :=
  match ops with
  | [] => ret tt
  | o :: r => run_op o ;; run_ops r
  end.

(** A playback process is tracked. *)
Definition tracked (w : World) : Prop := 0 < ffmpeg_pid (globals w).

(** The operation [o], run in [w], does not reap the tracked leader while
    the state is PAUSED. *)
Definition op_calm (o : Op) (w : World) : bool :=
  match o with
  | OpReap p =>
      negb ((p =? ffmpeg_pid (globals w)) && tv_state_eqb (state (globals w)) ST_PAUSED)
  | _ => true
  end.

(** [start_playback], called in [w], finds a video, copies its name and
    forks successfully: the three answers it asks for after stopping what is
    tracked. *)
Definition start_ok (w : World) : bool :=
  let w1 := exec stop_playback w in
  match env_video_line (env w1) (nq w1) with
  | Some line =>
      negb (String.eqb (strip_eol line) EmptyString)
      && env_alloc (env w1) (S (nq w1))
      && (0 <? env_fork (env w1) (S (S (nq w1))))
  | None => false
  end.

(** The world in which the operation [o], run in [w], calls
    [start_playback], when it does call it. *)
Definition op_start_world (o : Op) (w : World) : option World :=
  match o with
  | OpPowerOn => Some (exec fb_clear (exec backlight_on w))
  | OpNextEpisode =>
      if tv_state_eqb (state (globals w)) ST_PLAYING
      then Some (exec static_noise_av (exec stop_playback w))
      else None
  | OpReap p =>
      if (0 <? p) && (p =? ffmpeg_pid (globals w))
         && tv_state_eqb (state (globals w)) ST_PLAYING
      then Some (exec (log_console "ffmpeg died, restarting")
                   (exec (set_ffmpeg (-1) false) w))
      else None
  | _ => None
  end.

(** The operation [o], run in [w], does not reap the tracked leader while
    PAUSED, and the [start_playback] it calls, if any, succeeds. *)
Definition op_ok (o : Op) (w : World) : bool :=
  op_calm o w &&
  match op_start_world o w with
  | Some ws => start_ok ws
  | None => true
  end.

(** Every operation of the sequence, run from [w], is so. *)
Fixpoint run_ok (ops : list Op) (w : World) : bool :=
  match ops with
  | [] => true
  | o :: r => op_ok o w && run_ok r (exec (run_op o) w)
  end.

(** ** Taps *)

(** A release of the touch button. *)
Definition is_release (ev : input_event) : Prop :=
  ev_type ev = EV_KEY /\ ev_code ev = BTN_TOUCH /\ ev_value ev = 0.

Definition release : input_event := mkEvent EV_KEY BTN_TOUCH 0.
Definition press : input_event := mkEvent EV_KEY BTN_TOUCH 1.

(** The player 100 is tracked in state [st], and a single tap armed at
    4980 ms is pending at 5200 ms. *)
Definition world_pending (st : tv_state_t) : World :=
  mkWorld (mkGlobals 100 false true 5300 st) 5200 [] [] O (env_demo (fun _ => true)).

(** The daemon from its start until the end of the [n]-th loop iteration. *)
Definition run_daemon (n : nat) (e : Env) (q : list (Z * input_event)) : World :=
  exec (lp <- main_init ;; ticks n lp) (world0 e q).

(** How often the message [m] was logged. *)
Definition count_log (m : string) (tr : list event) : nat :=
  List.length
    (List.filter
       (fun ev => match ev with EvLog m' => String.eqb m' m | _ => false end) tr).

(** Two taps whose releases are 294 ms apart. *)
Definition taps_close : list (Z * input_event) :=
  [(0, press); (1, release); (294, press); (295, release)].

(** Two taps whose releases are 324 ms apart. *)
Definition taps_apart : list (Z * input_event) :=
  [(0, press); (1, release); (324, press); (325, release)].

(** ** Line endings *)

(** Every character of [s] is a newline or a carriage return. *)
Fixpoint all_eol (s : string) : bool :=
  match s with
  | EmptyString => true
  | String c s' => is_eol c && all_eol s'
  end.

(** The last character of [s], if there is one, is a newline or a carriage
    return. *)
Fixpoint last_is_eol (s : string) : bool :=
  match s with
  | EmptyString => false
  | String c EmptyString => is_eol c
  | String _ s' => last_is_eol s'
  end.

(** ** Invariants of the whole daemon *)

(** While OFF nothing is tracked and no tap is pending. *)
Definition off_is_idle (w : World) : Prop :=
  state (globals w) = ST_OFF ->
  ffmpeg_pid (globals w) <= 0 /\ pending_single (globals w) = false.

(** Every signal in the trace goes to a process group, and to the group of
    a player that was spawned earlier in the trace. *)
Definition kills_follow_spawns (tr : list event) : Prop :=
  forall a t s b,
    tr = a ++ EvKill t s :: b ->
    t < 0 /\ exists v, In (EvSpawnPlayer v (- t)) a.

(** The trace is as above, and the tracked process is a player the daemon
    spawned. *)
Definition signals_safe (w : World) : Prop :=
  kills_follow_spawns (trace w) /\
  (0 < ffmpeg_pid (globals w) ->
   exists v, In (EvSpawnPlayer v (ffmpeg_pid (globals w))) (trace w)).

(** The computation [c] keeps [signals_safe]. *)
Definition keeps_safe {A : Type} (c : M A) : Prop :=
  forall w, signals_safe w -> signals_safe (exec c w).

(** An event that is a signal. *)
Definition is_kill (e : event) : bool :=
  match e with
  | EvKill _ _ => true
  | _ => false
  end.

(** An environment like [env_demo] in which the switch reads off. *)
Definition env_off : Env :=
  mkEnv (fun _ => true) (fun k => 100 + Z.of_nat k)
    (fun _ => Some "GPIO 26: level=0 fsel=0 func=INPUT")
    (fun _ => Some ("/mnt/videos/ep1.mp4" ++ nl)%string)
    (fun _ => true) (fun _ => 3) (fun _ => 1228800) (fun _ => []).

(** An environment in which the touch device cannot be opened and the
    library is empty. *)
Definition env_no_touch : Env :=
  mkEnv (fun _ => true) (fun k => 100 + Z.of_nat k)
    (fun _ => Some "GPIO 26: level=1 fsel=0 func=INPUT")
    (fun _ => None)
    (fun _ => true) (fun _ => -1) (fun _ => 0) (fun _ => []).

(** ** Sleep asked for *)

(** The milliseconds of sleep asked for in a trace: the sum over its
    [ms_sleep] calls. *)
Fixpoint slept (tr : list event) : Z :=
  match tr with
  | [] => 0
  | EvSleep ms :: r => ms + slept r
  | _ :: r => slept r
  end.

(** * Properties *)

(** ** Reasoning about computations *)

Lemma exec_bind {A B : Type} (c : M A) (k : A -> M B) (w : World) :
  exec (bind c k) w = exec (k (eval c w)) (exec c w).
Proof. unfold exec, eval, bind. destruct (c w); reflexivity. Qed.

Lemma eval_bind {A B : Type} (c : M A) (k : A -> M B) (w : World) :
  eval (bind c k) w = eval (k (eval c w)) (exec c w).
Proof. unfold exec, eval, bind. destruct (c w); reflexivity. Qed.

Lemma exec_ret {A : Type} (a : A) (w : World) : exec (ret a) w = w.
Proof. reflexivity. Qed.

Lemma frame_refl (w : World) : frame w w.
Proof.
  constructor; try reflexivity; try lia.
  exists []. rewrite app_nil_r. split; reflexivity.
Qed.

Lemma frame_trans (w1 w2 w3 : World) : frame w1 w2 -> frame w2 w3 -> frame w1 w3.
Proof.
  intros [e1 i1 p1 d1 s1 n1 [t1 [Ht1 Hq1]]] [e2 i2 p2 d2 s2 n2 [t2 [Ht2 Hq2]]].
  constructor; try congruence; try lia.
  exists (t1 ++ t2). split.
  - rewrite Ht2, Ht1, app_assoc. reflexivity.
  - rewrite forallb_app, Hq1, Hq2. reflexivity.
Qed.

Lemma framed_ret {A : Type} (a : A) : framed (ret a).
Proof. intro w. apply frame_refl. Qed.

Lemma framed_bind {A B : Type} (c : M A) (k : A -> M B) :
  framed c -> (forall a, framed (k a)) -> framed (bind c k).
Proof.
  intros Hc Hk w. rewrite exec_bind.
  eapply frame_trans; [apply Hc | apply Hk].
Qed.

Lemma framed_if {A : Type} (b : bool) (c1 c2 : M A) :
  framed c1 -> framed c2 -> framed (if b then c1 else c2).
Proof. destruct b; auto. Qed.

Lemma framed_get_globals : framed get_globals.
Proof. intro w. apply frame_refl. Qed.

Lemma framed_now : framed now_ms_monotonic.
Proof. intro w. apply frame_refl. Qed.

Lemma framed_ask {A : Type} (f : Env -> nat -> A) : framed (ask f).
Proof.
  intro w. constructor; simpl; try reflexivity; try lia.
  exists []. rewrite app_nil_r. split; reflexivity.
Qed.

Lemma framed_emit (e : event) : quiet e = true -> framed (emit e).
Proof.
  intros He w. constructor; simpl; try reflexivity; try lia.
  exists [e]. simpl. rewrite He. split; reflexivity.
Qed.

Lemma framed_log (m : string) :
  String.eqb m "pause" = false -> String.eqb m "resume" = false ->
  framed (log_console m).
Proof. intros H1 H2. apply framed_emit. simpl. rewrite H1, H2. reflexivity. Qed.

Lemma framed_sleep (ms : Z) : 0 <= ms -> framed (ms_sleep ms).
Proof.
  intros Hms w. constructor; simpl; try reflexivity; try lia.
  exists [EvSleep ms]. split; reflexivity.
Qed.

Lemma framed_set_ffmpeg (pid : Z) (paused : bool) : framed (set_ffmpeg pid paused).
Proof.
  intro w. constructor; simpl; try reflexivity; try lia.
  exists []. rewrite app_nil_r. split; reflexivity.
Qed.

Create HintDb tvd.
#[export] Hint Resolve framed_ret framed_get_globals framed_now framed_ask
  framed_set_ffmpeg : tvd.

Ltac framed_step :=
  first
    [ solve [ auto with tvd ]
    | apply framed_emit; reflexivity
    | apply framed_log; reflexivity
    | apply framed_sleep; unfold STATIC_MS; lia
    | apply framed_if
    | apply framed_bind; [ | intro ] ].

Ltac framed_tac := repeat framed_step.

Lemma framed_ffmpeg_alive : framed ffmpeg_alive.
Proof. unfold ffmpeg_alive. framed_tac. Qed.
#[export] Hint Resolve framed_ffmpeg_alive : tvd.

Lemma framed_stop_poll (n : nat) : framed (stop_poll n).
Proof. induction n as [| n IH]; simpl; framed_tac. Qed.
#[export] Hint Resolve framed_stop_poll : tvd.

Lemma framed_stop_playback : framed stop_playback.
Proof. unfold stop_playback. framed_tac. Qed.
#[export] Hint Resolve framed_stop_playback : tvd.

Lemma framed_static_frames (n : nat) : framed (static_frames n).
Proof. induction n as [| n IH]; simpl; framed_tac. Qed.
#[export] Hint Resolve framed_static_frames : tvd.

Lemma framed_start_static_audio : framed start_static_audio.
Proof. unfold start_static_audio. framed_tac. Qed.
#[export] Hint Resolve framed_start_static_audio : tvd.

Lemma framed_static_noise_av : framed static_noise_av.
Proof. unfold static_noise_av. framed_tac. Qed.
#[export] Hint Resolve framed_static_noise_av : tvd.

Lemma framed_pick_random_video : framed pick_random_video.
Proof.
  unfold pick_random_video. apply framed_bind; [auto with tvd | intro l].
  destruct l as [line |]; [| apply framed_ret].
  destruct (strip_eol line); framed_tac.
Qed.
#[export] Hint Resolve framed_pick_random_video : tvd.

Lemma framed_start_playback : framed start_playback.
Proof.
  unfold start_playback.
  apply framed_bind; [apply framed_stop_playback | intros _].
  apply framed_bind; [apply framed_pick_random_video | intros [v |]];
    framed_tac.
Qed.
#[export] Hint Resolve framed_start_playback : tvd.

(** ** The playback supervisor *)

#[local] Arguments Z.mul : simpl never.
#[local] Arguments Z.add : simpl never.
#[local] Arguments Z.of_nat : simpl never.
#[local] Arguments Z.opp : simpl never.
#[local] Arguments Nat.min : simpl never.

Lemma polls_le (alive : nat -> bool) (n k : nat) : (polls alive n k <= n)%nat.
Proof.
  revert k. induction n as [| n IH]; intro k; simpl; [lia |].
  destruct (alive k); [specialize (IH (S k)) |]; lia.
Qed.

Lemma polls_alive (alive : nat -> bool) (n k i : nat) :
  (i < polls alive n k)%nat -> alive (k + i)%nat = true.
Proof.
  revert k i. induction n as [| n IH]; intros k i; simpl; [lia |].
  destruct (alive k) eqn:Hk; [| lia].
  destruct i as [| i]; intro Hi.
  - rewrite Nat.add_0_r. exact Hk.
  - replace (k + S i)%nat with (S k + i)%nat by lia. apply IH. lia.
Qed.

Lemma polls_dead (alive : nat -> bool) (n k : nat) :
  (polls alive n k < n)%nat -> alive (k + polls alive n k)%nat = false.
Proof.
  revert k. induction n as [| n IH]; intro k; simpl; [lia |].
  destruct (alive k) eqn:Hk; intro Hlt.
  - replace (k + S (polls alive n (S k)))%nat
      with (S k + polls alive n (S k))%nat by lia.
    apply IH. lia.
  - rewrite Nat.add_0_r. exact Hk.
Qed.

Lemma stop_poll_spec (n : nat) (w : World) :
  0 < ffmpeg_pid (globals w) ->
  exec (stop_poll n) w =
    let k := polls (env_kill0 (env w)) n (nq w) in
    mkWorld (globals w) (now w + 30 * Z.of_nat k)
      (trace w ++ repeat (EvSleep 30) k) (inq w)
      (nq w + Nat.min n (S k)) (env w).
Proof.
  revert w. induction n as [| n IH]; intros [g t tr q k e] Hpid.
  - unfold exec; cbn. rewrite Z.add_0_r, app_nil_r, Nat.add_0_r. reflexivity.
  - cbn in Hpid. apply Z.ltb_lt in Hpid.
    unfold exec. cbn [stop_poll polls]. unfold ffmpeg_alive, bind, get_globals, ask.
    cbn. rewrite Hpid. cbn.
    destruct (env_kill0 e k); cbn.
    + match goal with
      | |- context [stop_poll n ?W] => pose proof (IH W) as IH'
      end.
      unfold exec in IH'. rewrite IH' by (apply Z.ltb_lt; exact Hpid). cbn.
      f_equal.
      * lia.
      * rewrite <- app_assoc. reflexivity.
      * lia.
    + rewrite Z.add_0_r, app_nil_r. f_equal. lia.
Qed.

#[local] Arguments stop_poll : simpl never.

Lemma stop_playback_idle (w : World) :
  ffmpeg_pid (globals w) <= 0 -> exec stop_playback w = w.
Proof.
  destruct w as [g t tr q k e]. cbn. intro H. apply Z.leb_le in H.
  unfold exec, stop_playback, bind, get_globals. cbn. rewrite H. reflexivity.
Qed.

Lemma stop_playback_spec (w : World) :
  0 < ffmpeg_pid (globals w) ->
  exec stop_playback w =
    let g := globals w in
    let k := polls (env_kill0 (env w)) 25 (nq w) in
    mkWorld
      (mkGlobals (-1) false (pending_single g) (pending_deadline_ms g) (state g))
      (now w + 30 * Z.of_nat k)
      (trace w ++ [EvKill (- ffmpeg_pid g) SIGTERM] ++ repeat (EvSleep 30) k
         ++ [EvKill (- ffmpeg_pid g) SIGKILL; EvWaitpid (ffmpeg_pid g)])
      (inq w) (nq w + Nat.min 25 (S k)) (env w).
Proof.
  destruct w as [g t tr q k e]. cbn [globals now trace inq nq env]. intro Hpid.
  assert (Hle : (ffmpeg_pid g <=? 0) = false) by (apply Z.leb_gt; exact Hpid).
  unfold exec, stop_playback, bind, get_globals, emit. cbn. rewrite Hle.
  match goal with
  | |- context [stop_poll 25 ?W] =>
      pose proof (stop_poll_spec 25 W Hpid) as Hp; unfold exec in Hp;
      destruct (stop_poll 25 W) as [u w'] eqn:Hw'
  end.
  cbn [snd] in Hp. subst w'. cbn.
  f_equal. rewrite <- !app_assoc. reflexivity.
Qed.

Lemma stop_playback_untracks (w : World) :
  ffmpeg_pid (globals (exec stop_playback w)) <= 0.
Proof.
  destruct (Z_lt_le_dec 0 (ffmpeg_pid (globals w))) as [H | H].
  - rewrite stop_playback_spec by exact H. simpl. lia.
  - rewrite stop_playback_idle by exact H. exact H.
Qed.

(** C2 (amended): with a process tracked, [stop_playback] sends SIGTERM to
    the group, sleeps 30 ms after each of the first [k <= 25] liveness probes
    that finds the leader alive (stopping at the first probe that does not),
    and then sends SIGKILL to the group in every case, whether or not the
    leader is still alive; it ends with a non-blocking [waitpid] and with
    the tracking and the pause flag cleared. *)
Theorem stop_playback_forces_unconditionally (w : World) :
  0 < ffmpeg_pid (globals w) ->
  exists k : nat,
    (k <= 25)%nat /\
    (forall i, (i < k)%nat -> env_kill0 (env w) (nq w + i)%nat = true) /\
    ((k < 25)%nat -> env_kill0 (env w) (nq w + k)%nat = false) /\
    trace (exec stop_playback w) =
      trace w ++ [EvKill (- ffmpeg_pid (globals w)) SIGTERM]
        ++ repeat (EvSleep 30) k
        ++ [EvKill (- ffmpeg_pid (globals w)) SIGKILL;
            EvWaitpid (ffmpeg_pid (globals w))] /\
    ffmpeg_pid (globals (exec stop_playback w)) = -1 /\
    ffmpeg_paused (globals (exec stop_playback w)) = false.
Proof.
  intro Hpid. exists (polls (env_kill0 (env w)) 25 (nq w)).
  split; [apply polls_le |].
  split; [intros i Hi; apply (polls_alive _ 25); exact Hi |].
  split; [apply polls_dead |].
  rewrite stop_playback_spec by exact Hpid. cbn. auto.
Qed.

Lemma stop_playback_forces_unconditionally_witness :
  0 < ffmpeg_pid (globals (world_playing (fun i => Nat.ltb i 3))) /\
  exists k : nat,
    (k <= 25)%nat /\
    (forall i, (i < k)%nat -> Nat.ltb (0 + i) 3 = true) /\
    ((k < 25)%nat -> Nat.ltb (0 + k) 3 = false) /\
    trace (exec stop_playback (world_playing (fun i => Nat.ltb i 3))) =
      [] ++ [EvKill (- 100) SIGTERM] ++ repeat (EvSleep 30) k
         ++ [EvKill (- 100) SIGKILL; EvWaitpid 100] /\
    ffmpeg_pid (globals (exec stop_playback (world_playing (fun i => Nat.ltb i 3)))) = -1 /\
    ffmpeg_paused (globals (exec stop_playback (world_playing (fun i => Nat.ltb i 3)))) = false.
Proof.
  split.
  - reflexivity.
  - apply (stop_playback_forces_unconditionally (world_playing (fun i => Nat.ltb i 3))).
    reflexivity.
Defined.

(** C2 as stated fails: the leader is found dead at the first probe, and
    SIGKILL is sent to the group all the same. *)
Lemma stop_playback_forces_dead_group :
  ~ (forall w : World,
       0 < ffmpeg_pid (globals w) ->
       (exists i, (i < 25)%nat /\ env_kill0 (env w) (nq w + i)%nat = false) ->
       ~ In (EvKill (- ffmpeg_pid (globals w)) SIGKILL)
            (trace (exec stop_playback w))).
Proof.
  intro H.
  apply (H (world_playing (fun _ => false))).
  - reflexivity.
  - exists O. split; [lia | reflexivity].
  - vm_compute. right. left. reflexivity.
Qed.

(** C3 (amended): [resume_ffmpeg] does nothing unless a process is tracked
    and alive; when one is, it sends SIGCONT to the group and clears the
    pause flag, whatever the pause flag was. *)
Theorem resume_ffmpeg_spec (w : World) :
  (ffmpeg_pid (globals w) <= 0 -> exec resume_ffmpeg w = w) /\
  (0 < ffmpeg_pid (globals w) -> env_kill0 (env w) (nq w) = false ->
     globals (exec resume_ffmpeg w) = globals w /\
     trace (exec resume_ffmpeg w) = trace w /\
     now (exec resume_ffmpeg w) = now w) /\
  (0 < ffmpeg_pid (globals w) -> env_kill0 (env w) (nq w) = true ->
     trace (exec resume_ffmpeg w) =
       trace w ++ [EvKill (- ffmpeg_pid (globals w)) SIGCONT] /\
     globals (exec resume_ffmpeg w) =
       mkGlobals (ffmpeg_pid (globals w)) false (pending_single (globals w))
         (pending_deadline_ms (globals w)) (state (globals w))).
Proof.
  destruct w as [g t tr q k e]. cbn [globals now trace inq nq env].
  unfold exec, resume_ffmpeg, ffmpeg_alive, bind, get_globals, ask, emit,
    set_paused, set_ffmpeg, put_globals, ret.
  cbn [globals now trace inq nq env fst snd].
  split; [| split].
  - intro H. apply Z.ltb_ge in H. rewrite H. reflexivity.
  - intros H Ha. apply Z.ltb_lt in H. rewrite H. cbn. rewrite Ha. cbn. auto.
  - intros H Ha. apply Z.ltb_lt in H. rewrite H. cbn. rewrite Ha. cbn. auto.
Qed.

Lemma resume_ffmpeg_spec_witness :
  0 < ffmpeg_pid (globals (world_playing (fun _ => true))) /\
  env_kill0 (env (world_playing (fun _ => true))) O = true /\
  trace (exec resume_ffmpeg (world_playing (fun _ => true))) =
    [] ++ [EvKill (- 100) SIGCONT].
Proof.
  split; [reflexivity | split; [reflexivity |]].
  apply (resume_ffmpeg_spec (world_playing (fun _ => true))); reflexivity.
Defined.

(** C3 as stated fails: the tracked process is alive and not marked frozen,
    and [resume_ffmpeg] still sends SIGCONT. *)
Lemma resume_ffmpeg_signals_unfrozen :
  ~ (forall w : World,
       0 < ffmpeg_pid (globals w) ->
       env_kill0 (env w) (nq w) = true ->
       ffmpeg_paused (globals w) = false ->
       trace (exec resume_ffmpeg w) = trace w).
Proof.
  intro H.
  specialize (H (world_playing (fun _ => true)) eq_refl eq_refl eq_refl).
  vm_compute in H. discriminate H.
Qed.

(** ** The transition effect *)

(** The frame loop takes 20 ms for each frame it writes. *)
Lemma static_frames_elapsed (n : nat) (w : World) :
  now w <= now (exec (static_frames n) w) <= now w + 20 * Z.of_nat n.
Proof.
  revert w. induction n as [| n IH]; intros [g t tr q k e].
  - unfold exec; cbn. lia.
  - unfold exec. cbn [static_frames]. unfold bind, ask, emit, ms_sleep. cbn.
    destruct (env_read e k <=? 0); cbn.
    + lia.
    + match goal with
      | |- context [static_frames n ?W] => pose proof (IH W) as IH'
      end.
      unfold exec in IH'. cbn in IH'. lia.
Qed.

#[local] Arguments static_frames : simpl never.

(** After the video phase [static_noise_av] always sleeps the whole of
    [STATIC_MS], however long the video phase took. *)
Lemma static_noise_av_elapsed_ge (w : World) :
  now w + STATIC_MS <= now (exec static_noise_av w).
Proof.
  destruct w as [g t tr q k e].
  unfold exec, static_noise_av, start_static_audio, bind, ask, emit, ms_sleep, ret.
  cbn.
  destruct (0 <? env_fork e k) eqn:Hfork; cbn;
    destruct ((0 <=? env_open e (S k)) && (0 <=? env_open e (S (S k)))); cbn;
    try destruct (env_alloc e (S (S (S k)))); cbn;
    try match goal with
    | |- context [static_frames STATIC_FRAMES ?W] =>
        pose proof (static_frames_elapsed STATIC_FRAMES W) as Hf;
        unfold exec in Hf; destruct (static_frames STATIC_FRAMES W) as [u w'];
        cbn in Hf
    end; cbn; rewrite ?Hfork; cbn; lia.
Qed.

(** C6 (the code run at the failing input): both devices open, the buffer
    is allocated and three frames are read and written.  The video phase
    takes 3 x 20 ms, and the function then sleeps the full 250 ms, so the
    effect lasts 310 ms from its start, 60 ms more than the total budget;
    it ends with the single non-blocking [waitpid] for the noise process. *)
Theorem static_noise_av_overruns_budget :
  let w := world_playing (fun _ => true) in
  let w' := exec static_noise_av w in
  now w' - now w = 3 * 20 + STATIC_MS /\
  STATIC_MS < now w' - now w /\
  trace w' =
    [EvSpawnNoise 100;
     EvFbWrite 1228800; EvSleep 20;
     EvFbWrite 1228800; EvSleep 20;
     EvFbWrite 1228800; EvSleep 20;
     EvSleep STATIC_MS; EvWaitpid 100].
Proof. vm_compute. repeat split; reflexivity. Qed.

(** ** The power state machine *)

Lemma do_power_off_exec (w : World) :
  exec do_power_off w =
    let w1 := exec stop_playback w in
    mkWorld
      (mkGlobals (ffmpeg_pid (globals w1)) (ffmpeg_paused (globals w1)) false 0 ST_OFF)
      (now w1)
      (trace w1 ++ [EvFbClear; EvBacklight false; EvLog "power OFF"])
      (inq w1) (nq w1) (env w1).
Proof.
  unfold exec, do_power_off. unfold bind at 1.
  destruct (stop_playback w) as [u [g t tr q k e]]. cbn.
  rewrite <- !app_assoc. reflexivity.
Qed.

(** C8: the off-transition is idempotent.  After one [do_power_off] the
    state is OFF, no process is tracked and no tap is pending; a second
    [do_power_off] leaves the globals, the clock and the query counter as
    they are, sends no signal, and only repeats the screen clearing, the
    backlight command and the log line. *)
Theorem do_power_off_idempotent (w : World) :
  let w1 := exec do_power_off w in
  let w2 := exec do_power_off w1 in
  state (globals w1) = ST_OFF /\
  ffmpeg_pid (globals w1) <= 0 /\
  pending_single (globals w1) = false /\
  pending_deadline_ms (globals w1) = 0 /\
  globals w2 = globals w1 /\
  now w2 = now w1 /\ nq w2 = nq w1 /\ inq w2 = inq w1 /\
  trace w2 = trace w1 ++ [EvFbClear; EvBacklight false; EvLog "power OFF"].
Proof.
  intros w1 w2.
  assert (Hpid : ffmpeg_pid (globals w1) <= 0).
  { unfold w1. rewrite do_power_off_exec. cbn. apply stop_playback_untracks. }
  assert (H2 : w2 =
    mkWorld (mkGlobals (ffmpeg_pid (globals w1)) (ffmpeg_paused (globals w1)) false 0 ST_OFF)
      (now w1) (trace w1 ++ [EvFbClear; EvBacklight false; EvLog "power OFF"])
      (inq w1) (nq w1) (env w1)).
  { unfold w2. rewrite do_power_off_exec. cbn zeta.
    rewrite (stop_playback_idle w1 Hpid). reflexivity. }
  rewrite H2. unfold w1 in *. rewrite do_power_off_exec in *. cbn in *.
  repeat split; auto.
Qed.

(** ** Starting a video *)

Lemma stop_playback_twice (w : World) :
  exec stop_playback (exec stop_playback w) = exec stop_playback w.
Proof. apply stop_playback_idle, stop_playback_untracks. Qed.

Lemma start_playback_after_stop (w : World) :
  exec start_playback w = exec start_playback (exec stop_playback w).
Proof.
  unfold start_playback. rewrite !exec_bind, stop_playback_twice. reflexivity.
Qed.

(** With nothing tracked, a video found and a successful [fork], the new
    player is spawned as the leader of its own group and tracked. *)
Lemma start_playback_idle_launch (w : World) (line : string) :
  ffmpeg_pid (globals w) <= 0 ->
  env_video_line (env w) (nq w) = Some line ->
  strip_eol line <> EmptyString ->
  env_alloc (env w) (S (nq w)) = true ->
  0 < env_fork (env w) (S (S (nq w))) ->
  exec start_playback w =
    let pid := env_fork (env w) (S (S (nq w))) in
    mkWorld
      (mkGlobals pid false (pending_single (globals w))
         (pending_deadline_ms (globals w)) (state (globals w)))
      (now w)
      (trace w ++ [EvLog ("play: " ++ strip_eol line)%string;
                   EvSpawnPlayer (strip_eol line) pid; EvSetpgid pid pid])
      (inq w) (S (S (S (nq w)))) (env w).
Proof.
  intros Hpid Hline Hne Halloc Hfork.
  unfold start_playback. rewrite exec_bind, (stop_playback_idle w Hpid).
  destruct w as [g t tr q k e]. cbn [globals now trace inq nq env] in *.
  apply Z.ltb_lt in Hfork.
  unfold exec, pick_random_video, bind, ask, ret, log_console, emit, set_ffmpeg,
    get_globals, put_globals.
  cbn [globals now trace inq nq env fst snd]. rewrite Hline.
  destruct (strip_eol line) as [| c v] eqn:Hs; [congruence |].
  cbn [globals now trace inq nq env fst snd]. rewrite Halloc.
  cbn [globals now trace inq nq env fst snd]. rewrite Hfork.
  cbn [globals now trace inq nq env fst snd pending_single pending_deadline_ms state].
  rewrite <- !app_assoc. reflexivity.
Qed.

(** With no video found nothing is spawned and nothing is tracked. *)
Lemma start_playback_idle_empty (w : World) :
  ffmpeg_pid (globals w) <= 0 ->
  env_video_line (env w) (nq w) = None ->
  exec start_playback w =
    mkWorld (globals w) (now w)
      (trace w ++ [EvLog ("no videos found in " ++ VIDEO_DIR)%string])
      (inq w) (S (nq w)) (env w).
Proof.
  intros Hpid Hline.
  unfold start_playback. rewrite exec_bind, (stop_playback_idle w Hpid).
  destruct w as [g t tr q k e]. cbn [globals now trace inq nq env] in *.
  unfold exec, pick_random_video, bind, ask, ret, log_console, emit.
  cbn [globals now trace inq nq env fst snd]. rewrite Hline. reflexivity.
Qed.


Lemma do_power_on_exec (w : World) :
  exec do_power_on w =
    let w1 := exec start_playback (exec fb_clear (exec backlight_on w)) in
    mkWorld
      (mkGlobals (ffmpeg_pid (globals w1)) (ffmpeg_paused (globals w1)) false 0 ST_PLAYING)
      (now w1) (trace w1 ++ [EvLog "power ON"]) (inq w1) (nq w1) (env w1).
Proof.
  unfold do_power_on. repeat (rewrite exec_bind; cbv beta).
  generalize (exec start_playback (exec fb_clear (exec backlight_on w))).
  intros [g t tr q k e]. reflexivity.
Qed.

Lemma do_next_episode_playing (w : World) :
  state (globals w) = ST_PLAYING ->
  exec do_next_episode w =
    let w1 := exec start_playback (exec static_noise_av (exec stop_playback w)) in
    mkWorld
      (mkGlobals (ffmpeg_pid (globals w1)) (ffmpeg_paused (globals w1))
         (pending_single (globals w1)) (pending_deadline_ms (globals w1)) ST_PLAYING)
      (now w1) (trace w1 ++ [EvLog "next"]) (inq w1) (nq w1) (env w1).
Proof.
  intro Hst. unfold do_next_episode. rewrite exec_bind. cbv beta.
  change (eval get_globals w) with (globals w).
  change (exec get_globals w) with w.
  rewrite Hst. cbn [tv_state_eqb negb].
  repeat (rewrite exec_bind; cbv beta).
  generalize (exec start_playback (exec static_noise_av (exec stop_playback w))).
  intros [g t tr q k e]. reflexivity.
Qed.

Lemma do_next_episode_not_playing (w : World) :
  state (globals w) <> ST_PLAYING -> exec do_next_episode w = w.
Proof.
  intro Hst. unfold exec, do_next_episode, bind, get_globals.
  destruct (state (globals w)); try congruence; reflexivity.
Qed.

(** ** Pause toggle and reaper *)

Lemma do_pause_toggle_globals (w : World) :
  ffmpeg_pid (globals (exec do_pause_toggle w)) = ffmpeg_pid (globals w) /\
  env (exec do_pause_toggle w) = env w /\
  state (globals (exec do_pause_toggle w)) =
    match state (globals w) with
    | ST_PLAYING => ST_PAUSED
    | ST_PAUSED => ST_PLAYING
    | ST_OFF => ST_OFF
    end.
Proof.
  destruct w as [[pid pa pe de st] t tr q k e].
  unfold exec, do_pause_toggle, pause_ffmpeg, resume_ffmpeg, ffmpeg_alive, bind,
    get_globals, ask, ret, emit, log_console, set_paused, set_ffmpeg, set_state,
    put_globals.
  destruct st; cbn; auto;
    destruct (0 <? pid); cbn; auto; destruct (env_kill0 e k); cbn; auto.
Qed.

Lemma do_pause_toggle_off (w : World) :
  state (globals w) = ST_OFF -> exec do_pause_toggle w = w.
Proof.
  intro H. unfold exec, do_pause_toggle, bind, get_globals. rewrite H. reflexivity.
Qed.

Lemma reap_one_exec (p : Z) (w : World) :
  exec (reap_one p) w =
    if p =? ffmpeg_pid (globals w) then
      let w0 := exec (set_ffmpeg (-1) false) w in
      match state (globals w) with
      | ST_PLAYING =>
          exec start_playback (exec (log_console "ffmpeg died, restarting") w0)
      | _ => w0
      end
    else w.
Proof.
  unfold reap_one. rewrite exec_bind. cbv beta.
  change (eval get_globals w) with (globals w).
  change (exec get_globals w) with w.
  destruct (p =? ffmpeg_pid (globals w)); [| reflexivity].
  rewrite exec_bind. cbv beta.
  destruct (state (globals w)); reflexivity.
Qed.

Lemma reap_loop_single (p : Z) (w : World) :
  exec (reap_loop [p]) w = if 0 <? p then exec (reap_one p) w else w.
Proof.
  cbn [reap_loop]. destruct (0 <? p); [| reflexivity].
  rewrite exec_bind. reflexivity.
Qed.

Lemma reap_loop_cons (p : Z) (ps : list Z) (w : World) :
  0 < p -> exec (reap_loop (p :: ps)) w = exec (reap_loop ps) (exec (reap_one p) w).
Proof.
  intro Hp. apply Z.ltb_lt in Hp. cbn [reap_loop]. rewrite Hp.
  rewrite exec_bind. reflexivity.
Qed.

(** ** The invariant of the power state *)

Lemma run_op_env (o : Op) (w : World) : env (exec (run_op o) w) = env w.
Proof.
  destruct o; cbn [run_op].
  - rewrite do_power_on_exec. cbn.
    rewrite (fr_env _ _ (framed_start_playback _)). reflexivity.
  - rewrite do_power_off_exec. cbn.
    apply (fr_env _ _ (framed_stop_playback w)).
  - apply do_pause_toggle_globals.
  - destruct (state (globals w)) eqn:Hst.
    + rewrite do_next_episode_not_playing by congruence. reflexivity.
    + rewrite do_next_episode_playing by exact Hst. cbn.
      rewrite (fr_env _ _ (framed_start_playback _)).
      rewrite (fr_env _ _ (framed_static_noise_av _)).
      apply (fr_env _ _ (framed_stop_playback w)).
    + rewrite do_next_episode_not_playing by congruence. reflexivity.
  - rewrite reap_loop_single. destruct (0 <? p); [| reflexivity].
    rewrite reap_one_exec. destruct (p =? ffmpeg_pid (globals w)); [| reflexivity].
    destruct (state (globals w)); try reflexivity.
    cbn zeta. rewrite (fr_env _ _ (framed_start_playback _)). reflexivity.
Qed.

(** OFF implies that nothing is tracked: kept by every operation. *)
Lemma run_op_off_untracked (o : Op) (w : World) :
  (state (globals w) = ST_OFF -> ffmpeg_pid (globals w) <= 0) ->
  state (globals (exec (run_op o) w)) = ST_OFF ->
  ffmpeg_pid (globals (exec (run_op o) w)) <= 0.
Proof.
  intro Inv. destruct o; cbn [run_op].
  - rewrite do_power_on_exec. cbn. discriminate.
  - rewrite do_power_off_exec. cbn. intros _. apply stop_playback_untracks.
  - destruct (do_pause_toggle_globals w) as [Hp [_ Hs]]. rewrite Hp, Hs.
    destruct (state (globals w)); try discriminate. auto.
  - destruct (state (globals w)) eqn:Hst.
    + rewrite do_next_episode_not_playing by congruence. rewrite Hst. auto.
    + rewrite do_next_episode_playing by exact Hst. cbn. discriminate.
    + rewrite do_next_episode_not_playing by congruence. rewrite Hst. discriminate.
  - rewrite reap_loop_single. destruct (0 <? p); [| exact Inv].
    rewrite reap_one_exec. destruct (p =? ffmpeg_pid (globals w)); [| exact Inv].
    destruct (state (globals w)) eqn:Hst; cbn.
    + intros _. lia.
    + rewrite (fr_state _ _ (framed_start_playback _)). cbn. rewrite Hst. discriminate.
    + rewrite Hst. discriminate.
Qed.

Lemma start_ok_tracks (w : World) :
  start_ok w = true -> 0 < ffmpeg_pid (globals (exec start_playback w)).
Proof.
  unfold start_ok. cbv zeta. intro Hok. rewrite start_playback_after_stop.
  set (w1 := exec stop_playback w) in *.
  destruct (env_video_line (env w1) (nq w1)) as [line |] eqn:Hl;
    [| discriminate Hok].
  apply andb_prop in Hok. destruct Hok as [Hok Hf].
  apply andb_prop in Hok. destruct Hok as [Hne Ha].
  apply Z.ltb_lt in Hf.
  assert (Hs : strip_eol line <> EmptyString).
  { intro Heq. rewrite Heq in Hne. discriminate Hne. }
  rewrite (start_playback_idle_launch w1 line); auto.
  apply stop_playback_untracks.
Qed.

(** Not OFF implies that a process is tracked: kept by every operation
    whose own start succeeds and which does not reap the leader while
    PAUSED. *)
Lemma run_op_on_tracked (o : Op) (w : World) :
  op_ok o w = true ->
  (state (globals w) <> ST_OFF -> tracked w) ->
  state (globals (exec (run_op o) w)) <> ST_OFF ->
  tracked (exec (run_op o) w).
Proof.
  unfold tracked, op_ok. intros Hok Inv.
  apply andb_prop in Hok. destruct Hok as [Hcalm Hstart].
  destruct o; cbn [run_op op_start_world] in *.
  - rewrite do_power_on_exec. cbn. intros _. apply start_ok_tracks. exact Hstart.
  - rewrite do_power_off_exec. cbn. congruence.
  - destruct (do_pause_toggle_globals w) as [Hp [_ Hs]]. rewrite Hp, Hs.
    intro H. apply Inv. destruct (state (globals w)); congruence.
  - destruct (state (globals w)) eqn:Hst; cbn [tv_state_eqb] in Hstart.
    + rewrite do_next_episode_not_playing by congruence. rewrite Hst. congruence.
    + rewrite do_next_episode_playing by exact Hst. cbn. intros _.
      apply start_ok_tracks. exact Hstart.
    + rewrite do_next_episode_not_playing by congruence. rewrite Hst. exact Inv.
  - rewrite reap_loop_single. destruct (0 <? p); [| exact Inv].
    rewrite reap_one_exec. cbn [op_calm] in Hcalm.
    destruct (p =? ffmpeg_pid (globals w)); [| exact Inv].
    destruct (state (globals w)) eqn:Hst; cbn in Hcalm, Hstart |- *.
    + congruence.
    + intros _. apply start_ok_tracks. exact Hstart.
    + discriminate Hcalm.
Qed.

Lemma exec_run_ops_cons (o : Op) (r : list Op) (w : World) :
  exec (run_ops (o :: r)) w = exec (run_ops r) (exec (run_op o) w).
Proof. cbn [run_ops]. rewrite exec_bind. reflexivity. Qed.

Lemma run_ops_off_untracked (ops : list Op) (w : World) :
  (state (globals w) = ST_OFF -> ffmpeg_pid (globals w) <= 0) ->
  state (globals (exec (run_ops ops) w)) = ST_OFF ->
  ffmpeg_pid (globals (exec (run_ops ops) w)) <= 0.
Proof.
  revert w. induction ops as [| o r IH]; intros w Inv.
  - exact Inv.
  - rewrite exec_run_ops_cons. apply IH. apply run_op_off_untracked. exact Inv.
Qed.

Lemma run_ops_on_tracked (ops : list Op) (w : World) :
  run_ok ops w = true ->
  (state (globals w) <> ST_OFF -> tracked w) ->
  state (globals (exec (run_ops ops) w)) <> ST_OFF ->
  tracked (exec (run_ops ops) w).
Proof.
  revert w. induction ops as [| o r IH]; intros w Hok Inv.
  - exact Inv.
  - cbn [run_ok] in Hok. apply andb_prop in Hok. destruct Hok as [Ho Hr].
    rewrite exec_run_ops_cons. apply IH.
    + exact Hr.
    + apply run_op_on_tracked; assumption.
Qed.


(** C1 (amended): after every sequence of operations from the initial
    state, a tracked playback process implies that the power state is not
    OFF; and the power state not being OFF implies a tracked process as long
    as every start() of the run found a video and forked successfully and
    the tracked leader was never reaped while PAUSED.  Nothing is asked of
    the other answers of the environment. *)
Theorem tracked_iff_not_off_amended
    (e : Env) (q : list (Z * input_event)) (ops : list Op) :
  let w := exec (run_ops ops) (world0 e q) in
  (tracked w -> state (globals w) <> ST_OFF) /\
  (run_ok ops (world0 e q) = true ->
   state (globals w) <> ST_OFF -> tracked w).
Proof.
  cbv zeta. split.
  - unfold tracked. intros Htr Hoff.
    assert (Inv0 : state (globals (world0 e q)) = ST_OFF ->
                   ffmpeg_pid (globals (world0 e q)) <= 0)
      by (intros _; cbn; lia).
    pose proof (run_ops_off_untracked ops (world0 e q) Inv0 Hoff). lia.
  - intros Hok. apply run_ops_on_tracked; try assumption.
    cbn. congruence.
Qed.

Lemma tracked_iff_not_off_amended_witness :
  let w := exec (run_ops [OpPowerOn; OpNextEpisode; OpPauseToggle; OpReap 7])
             (world0 env_noise_fails []) in
  run_ok [OpPowerOn; OpNextEpisode; OpPauseToggle; OpReap 7]
    (world0 env_noise_fails []) = true /\
  (tracked w <-> state (globals w) <> ST_OFF).
Proof.
  cbv zeta.
  assert (Hok : run_ok [OpPowerOn; OpNextEpisode; OpPauseToggle; OpReap 7]
                  (world0 env_noise_fails []) = true) by (vm_compute; reflexivity).
  split; [exact Hok |].
  destruct (tracked_iff_not_off_amended env_noise_fails []
              [OpPowerOn; OpNextEpisode; OpPauseToggle; OpReap 7]) as [H1 H2].
  split; [exact H1 | exact (H2 Hok)].
Defined.

(** C1 as stated fails: with an empty media library the power-on leaves the
    state PLAYING and nothing tracked. *)
Lemma tracked_iff_not_off_fails :
  ~ (forall (e : Env) (q : list (Z * input_event)) (ops : list Op),
       let w := exec (run_ops ops) (world0 e q) in
       tracked w <-> state (globals w) <> ST_OFF).
Proof.
  intro H. specialize (H env_empty [] [OpPowerOn]). cbv zeta in H.
  destruct H as [_ H].
  assert (Hst : state (globals (exec (run_ops [OpPowerOn]) (world0 env_empty [])))
                <> ST_OFF) by (vm_compute; discriminate).
  apply H in Hst. vm_compute in Hst. discriminate Hst.
Qed.

(** The other case of C1: a leader reaped while PAUSED leaves the state
    PAUSED and nothing tracked. *)
Lemma paused_reap_untracks :
  let w := exec (run_ops [OpPowerOn; OpPauseToggle; OpReap 102])
             (world0 (env_demo (fun _ => true)) []) in
  state (globals w) = ST_PAUSED /\ ffmpeg_pid (globals w) = -1.
Proof. vm_compute. split; reflexivity. Qed.

Lemma reap_loop_idle (ps : list Z) (w : World) :
  ffmpeg_pid (globals w) <= 0 -> exec (reap_loop ps) w = w.
Proof.
  intro Hpid. induction ps as [| p ps IH].
  - reflexivity.
  - cbn [reap_loop]. destruct (0 <? p) eqn:Hp; [| reflexivity].
    rewrite exec_bind. cbv beta. rewrite reap_one_exec.
    assert (Hne : (p =? ffmpeg_pid (globals w)) = false) by lia.
    rewrite Hne. exact IH.
Qed.

Lemma reap_loop_others (ps : list Z) (w : World) :
  (forall x, In x ps -> x <> ffmpeg_pid (globals w)) ->
  exec (reap_loop ps) w = w.
Proof.
  induction ps as [| p ps IH]; intro Hne.
  - reflexivity.
  - cbn [reap_loop]. destruct (0 <? p); [| reflexivity].
    rewrite exec_bind. cbv beta. rewrite reap_one_exec.
    assert (Hp : (p =? ffmpeg_pid (globals w)) = false)
      by (apply Z.eqb_neq, Hne; left; reflexivity).
    rewrite Hp. apply IH. intros x Hin. apply Hne. right. exact Hin.
Qed.

Lemma reap_loop_app_others (pre l : list Z) (w : World) :
  (forall x, In x pre -> 0 < x /\ x <> ffmpeg_pid (globals w)) ->
  exec (reap_loop (pre ++ l)) w = exec (reap_loop l) w.
Proof.
  induction pre as [| x pre IH]; intro Hpre.
  - reflexivity.
  - destruct (Hpre x (or_introl eq_refl)) as [Hx Hne].
    cbn [app]. rewrite reap_loop_cons by exact Hx. rewrite reap_one_exec.
    apply Z.eqb_neq in Hne. rewrite Hne. apply IH.
    intros y Hy. apply Hpre. right. exact Hy.
Qed.

(** With nothing tracked and a start that does not succeed, nothing is
    spawned: [start_playback] only logs. *)
Lemma start_playback_idle_fail (w : World) :
  ffmpeg_pid (globals w) <= 0 ->
  start_ok w = false ->
  globals (exec start_playback w) = globals w /\
  exists m, trace (exec start_playback w) = trace w ++ [EvLog m].
Proof.
  intros Hpid. unfold start_ok, start_playback. cbv zeta.
  rewrite exec_bind, (stop_playback_idle w Hpid).
  destruct w as [g t tr q k e].
  unfold exec, pick_random_video, bind, ask, ret, log_console, emit, set_ffmpeg,
    get_globals, put_globals.
  cbn [globals now trace inq nq env fst snd].
  destruct (env_video_line e k) as [line |];
    [| intros _; cbn; split; [reflexivity | eexists; reflexivity]].
  destruct (strip_eol line) as [| c v];
    [intros _; cbn; split; [reflexivity | eexists; reflexivity] |].
  cbn [String.eqb negb andb globals now trace inq nq env fst snd].
  destruct (env_alloc e (S k));
    [| intros _; cbn; split; [reflexivity | eexists; reflexivity]].
  cbn [andb globals now trace inq nq env fst snd].
  intro Hf. rewrite Hf. cbn. split; [reflexivity | eexists; reflexivity].
Qed.

(** C7 (amended): when the reaper loop collects the tracked leader [p],
    wherever in the pass, the tracking and the pause flag are cleared.
    While PLAYING, [start_playback] runs in the same pass before the next
    [waitpid]; a new process is tracked after it exactly when it finds a
    video and its [fork] succeeds, and otherwise the state stays PLAYING
    with nothing tracked.  While PAUSED (or OFF) nothing is started and the
    pass ends in the same state with no tracked process.  The pass ends in
    the world right after the leader was handled unless the new player is
    itself reaped later in the pass. *)
Theorem reaper_collects_leader (w : World) (pre rest : list Z) (p : Z) :
  0 < p ->
  p = ffmpeg_pid (globals w) ->
  (forall x, In x pre -> 0 < x /\ x <> p) ->
  env_reaped (env w) (nq w) = pre ++ p :: rest ->
  let ws := exec (log_console "ffmpeg died, restarting")
              (exec (set_ffmpeg (-1) false) (exec (ask env_reaped) w)) in
  exists w1 : World,
    exec reap_children w = exec (reap_loop rest) w1 /\
    ((forall x, In x rest -> x <> ffmpeg_pid (globals w1)) ->
     exec reap_children w = w1) /\
    match state (globals w) with
    | ST_PLAYING =>
        w1 = exec start_playback ws /\
        state (globals w1) = ST_PLAYING /\
        (start_ok ws = true ->
         let pid := env_fork (env w) (S (S (S (nq w)))) in
         0 < pid /\
         ffmpeg_pid (globals w1) = pid /\
         ffmpeg_paused (globals w1) = false /\
         exists v,
           trace w1 =
             trace w ++ [EvLog "ffmpeg died, restarting";
                         EvLog ("play: " ++ v)%string;
                         EvSpawnPlayer v pid; EvSetpgid pid pid]) /\
        (start_ok ws = false ->
         ffmpeg_pid (globals w1) = -1 /\
         ffmpeg_paused (globals w1) = false /\
         exists m,
           trace w1 = trace w ++ [EvLog "ffmpeg died, restarting"; EvLog m])
    | st =>
        w1 = mkWorld
               (mkGlobals (-1) false (pending_single (globals w))
                  (pending_deadline_ms (globals w)) st)
               (now w) (trace w) (inq w) (S (nq w)) (env w) /\
        exec reap_children w = w1
    end.
Proof.
  intros Hp Heq Hpre Hre. cbv zeta.
  set (w0 := exec (ask env_reaped) w).
  assert (Hg : globals w0 = globals w) by reflexivity.
  assert (Hrc : exec reap_children w = exec (reap_loop rest) (exec (reap_one p) w0)).
  { unfold reap_children. rewrite exec_bind. cbv beta.
    change (eval (ask env_reaped) w) with (env_reaped (env w) (nq w)).
    rewrite Hre. fold w0.
    rewrite reap_loop_app_others by (rewrite Hg, <- Heq; exact Hpre).
    apply reap_loop_cons. exact Hp. }
  exists (exec (reap_one p) w0).
  split; [exact Hrc |].
  split; [intro Hrest; rewrite Hrc; apply reap_loop_others; exact Hrest |].
  assert (Hone : exec (reap_one p) w0 =
                 match state (globals w) with
                 | ST_PLAYING =>
                     exec start_playback
                       (exec (log_console "ffmpeg died, restarting")
                          (exec (set_ffmpeg (-1) false) w0))
                 | _ => exec (set_ffmpeg (-1) false) w0
                 end).
  { rewrite reap_one_exec, Hg, <- Heq, Z.eqb_refl. reflexivity. }
  set (ws := exec (log_console "ffmpeg died, restarting")
               (exec (set_ffmpeg (-1) false) w0)) in *.
  assert (Hws : ffmpeg_pid (globals ws) <= 0) by (cbn; lia).
  destruct (state (globals w)) eqn:Hst.
  - assert (Hw1 : exec (reap_one p) w0 =
                  mkWorld
                    (mkGlobals (-1) false (pending_single (globals w))
                       (pending_deadline_ms (globals w)) ST_OFF)
                    (now w) (trace w) (inq w) (S (nq w)) (env w)).
    { rewrite Hone. destruct w as [g t tr q k e]. cbn in *. rewrite Hst. reflexivity. }
    split; [exact Hw1 |].
    rewrite Hrc, Hw1. apply reap_loop_idle. cbn. lia.
  - rewrite Hone. split; [reflexivity |]. split.
    + rewrite (fr_state _ _ (framed_start_playback ws)). exact Hst.
    + split.
      * intro Hok. pose proof (start_ok_tracks ws Hok) as Htr.
        unfold start_ok in Hok. cbv zeta in Hok.
        rewrite (stop_playback_idle ws Hws) in Hok.
        change (env ws) with (env w) in Hok.
        change (nq ws) with (S (nq w)) in Hok.
        destruct (env_video_line (env w) (S (nq w))) as [line |] eqn:Hl;
          [| discriminate Hok].
        apply andb_prop in Hok. destruct Hok as [Hok Hf].
        apply andb_prop in Hok. destruct Hok as [Hne Ha].
        apply Z.ltb_lt in Hf.
        assert (Hs : strip_eol line <> EmptyString).
        { intro Hempty. rewrite Hempty in Hne. discriminate Hne. }
        rewrite (start_playback_idle_launch ws line) in * by auto.
        cbn. repeat split; auto.
        exists (strip_eol line). rewrite <- app_assoc. reflexivity.
      * intro Hbad.
        destruct (start_playback_idle_fail ws Hws Hbad) as [Hgl [m Hm]].
        rewrite Hgl, Hm. cbn. repeat split.
        exists m. rewrite <- app_assoc. reflexivity.
  - assert (Hw1 : exec (reap_one p) w0 =
                  mkWorld
                    (mkGlobals (-1) false (pending_single (globals w))
                       (pending_deadline_ms (globals w)) ST_PAUSED)
                    (now w) (trace w) (inq w) (S (nq w)) (env w)).
    { rewrite Hone. destruct w as [g t tr q k e]. cbn in *. rewrite Hst. reflexivity. }
    split; [exact Hw1 |].
    rewrite Hrc, Hw1. apply reap_loop_idle. cbn. lia.
Qed.

Lemma reaper_collects_leader_witness :
  (forall x, In x [57] -> 0 < x /\ x <> 100) /\
  exists w1 : World,
    exec reap_children (world_crash ST_PLAYING) = w1 /\
    state (globals w1) = ST_PLAYING /\
    ffmpeg_pid (globals w1) = 103.
Proof.
  assert (Hpre : forall x, In x [57] -> 0 < x /\ x <> 100).
  { intros x [Hx | []]. subst x. split; lia. }
  split; [exact Hpre |].
  destruct (reaper_collects_leader (world_crash ST_PLAYING) [57] [] 100
              eq_refl eq_refl Hpre eq_refl) as [w1 [_ [Hend H2]]].
  cbn [world_crash globals state] in H2. destruct H2 as [_ [Hst [Hgood _]]].
  exists w1. split; [apply Hend; intros x [] |]. split; [exact Hst |].
  apply Hgood. vm_compute. reflexivity.
Defined.

(** C7 as stated fails: the leader is reaped while PLAYING and the media
    library is empty; [start_playback] runs, finds no video, and the pass
    ends PLAYING with no process tracked. *)
Lemma reaper_restart_tracks_nothing :
  ~ (forall (w : World) (p : Z),
       0 < p ->
       p = ffmpeg_pid (globals w) ->
       env_reaped (env w) (nq w) = [p] ->
       state (globals w) = ST_PLAYING ->
       tracked (exec reap_children w)).
Proof.
  intro H.
  specialize (H (mkWorld (mkGlobals 100 false false 0 ST_PLAYING) 5000 [] [] O
                   env_crash_empty) 100 eq_refl eq_refl eq_refl eq_refl).
  vm_compute in H. discriminate H.
Qed.

(** ** The tap recogniser *)

Lemma handle_event_release (ev : input_event) (ts0 : touch_state_t) (w : World) :
  is_release ev ->
  handle_event ev ts0 w = (mkTouch false 0, exec on_release w).
Proof.
  intros [Ht [Hc Hv]]. unfold handle_event. rewrite Ht, Hc, Hv. cbn.
  unfold bind, now_ms_monotonic, ret, exec.
  destruct (on_release w) as [u w']. reflexivity.
Qed.

Lemma exec_handle_release (ev : input_event) (ts0 : touch_state_t) (w : World) :
  is_release ev -> exec (handle_event ev ts0) w = exec on_release w.
Proof.
  intro Hrel. unfold exec at 1. rewrite handle_event_release by exact Hrel.
  reflexivity.
Qed.

Lemma on_release_pending (w : World) :
  pending_single (globals w) = true ->
  exec on_release w = exec do_next_episode (exec cancel_single_tap w).
Proof.
  intro Hp. unfold on_release. rewrite exec_bind. cbv beta.
  change (eval get_globals w) with (globals w).
  change (exec get_globals w) with w.
  rewrite Hp. cbn [negb]. rewrite exec_bind. reflexivity.
Qed.

Lemma on_release_idle (w : World) :
  pending_single (globals w) = false ->
  exec on_release w =
    mkWorld
      (mkGlobals (ffmpeg_pid (globals w)) (ffmpeg_paused (globals w)) true
         (now w + DOUBLE_TAP_WINDOW_MS) (state (globals w)))
      (now w) (trace w) (inq w) (nq w) (env w).
Proof.
  intro Hp. unfold on_release. rewrite exec_bind. cbv beta.
  change (eval get_globals w) with (globals w).
  change (exec get_globals w) with w.
  rewrite Hp. reflexivity.
Qed.

Lemma expire_step_idle (w : World) :
  pending_single (globals w) = false -> exec expire_step w = w.
Proof.
  intro Hp. unfold exec, expire_step, bind, get_globals, now_ms_monotonic.
  rewrite Hp. reflexivity.
Qed.

Lemma framed_do_next_episode : framed do_next_episode.
Proof.
  intro w. destruct (state (globals w)) eqn:Hst.
  - rewrite do_next_episode_not_playing by congruence. apply frame_refl.
  - rewrite do_next_episode_playing by exact Hst. cbv zeta.
    set (w1 := exec stop_playback w).
    set (w2 := exec static_noise_av w1).
    set (w3 := exec start_playback w2).
    assert (F : frame w w3).
    { eapply frame_trans; [apply (framed_stop_playback w) |].
      eapply frame_trans; [apply (framed_static_noise_av w1) |].
      apply (framed_start_playback w2). }
    destruct F as [Fe Fi Fp Fd Fs Fn [d [Ft Fq]]].
    constructor; cbn; auto; try congruence.
    exists (d ++ [EvLog "next"]). split.
    + rewrite Ft, app_assoc. reflexivity.
    + rewrite forallb_app, Fq. reflexivity.
  - rewrite do_next_episode_not_playing by congruence. apply frame_refl.
Qed.

(** C4: a release that arrives while a single tap is pending disarms the
    pending tap and runs the next-episode action in the same step, whatever
    the clock and the deadline are; the step sends no pause or resume, keeps
    the power state, and leaves nothing for the expiry check to fire. *)
Theorem double_tap_is_immediate
    (w : World) (ts0 : touch_state_t) (ev : input_event) :
  is_release ev ->
  pending_single (globals w) = true ->
  let w' := exec (handle_event ev ts0) w in
  w' = exec do_next_episode (exec cancel_single_tap w) /\
  pending_single (globals w') = false /\
  pending_deadline_ms (globals w') = 0 /\
  state (globals w') = state (globals w) /\
  (exists d, trace w' = trace w ++ d /\ forallb quiet d = true) /\
  (state (globals w) = ST_PLAYING ->
   exists d, trace w' = trace w ++ d ++ [EvLog "next"]) /\
  exec expire_step w' = w'.
Proof.
  intros Hrel Hp. cbv zeta.
  rewrite (exec_handle_release ev ts0 w Hrel), (on_release_pending w Hp).
  set (w0 := exec cancel_single_tap w).
  assert (H0p : pending_single (globals w0) = false) by reflexivity.
  assert (H0d : pending_deadline_ms (globals w0) = 0) by reflexivity.
  assert (H0s : state (globals w0) = state (globals w)) by reflexivity.
  assert (H0t : trace w0 = trace w) by reflexivity.
  destruct (framed_do_next_episode w0) as [Fe Fi Fp Fd Fs Fn [d [Ft Fq]]].
  assert (Hnp : pending_single (globals (exec do_next_episode w0)) = false)
    by congruence.
  repeat split.
  - exact Hnp.
  - congruence.
  - congruence.
  - exists d. split; [congruence | exact Fq].
  - intro Hst. rewrite do_next_episode_playing by congruence. cbv zeta. cbn [trace].
    destruct (frame_trans _ _ _ (framed_stop_playback w0)
                (frame_trans _ _ _ (framed_static_noise_av _)
                   (framed_start_playback _)))
      as [_ _ _ _ _ _ [d' [Hd' _]]].
    exists d'. rewrite Hd', H0t, app_assoc. reflexivity.
  - apply expire_step_idle. exact Hnp.
Qed.

Lemma double_tap_is_immediate_witness :
  is_release release /\
  pending_single (globals (world_pending ST_PLAYING)) = true /\
  pending_single
    (globals (exec (handle_event release (mkTouch true 5100))
                (world_pending ST_PLAYING))) = false.
Proof.
  split; [repeat split |]. split; [reflexivity |].
  apply (double_tap_is_immediate (world_pending ST_PLAYING) (mkTouch true 5100) release).
  - repeat split.
  - reflexivity.
Defined.

(** The scenario of two taps inside the window: the first release is read at
    10 ms and arms the tap for 330 ms; the iteration that starts at 300 ms
    reads the second release and runs the next-episode action at once. *)
Example taps_close_fire_at_second_release :
  let e := env_demo (fun _ => true) in
  let w30 := run_daemon 30 e taps_close in
  let w31 := run_daemon 31 e taps_close in
  now w30 = 300 /\
  pending_single (globals w30) = true /\
  pending_deadline_ms (globals w30) = 330 /\
  count_log "next" (trace w30) = 0%nat /\
  count_log "next" (trace w31) = 1%nat /\
  pending_single (globals w31) = false /\
  count_log "pause" (trace (run_daemon 150 e taps_close)) = 0%nat.
Proof. vm_compute. repeat split; reflexivity. Qed.

(** C9: a release is handled as a tap whatever the touch state says, also
    when no press was seen ([touching] false, [t_down_ms] 0): with nothing
    pending it arms a single tap due [DOUBLE_TAP_WINDOW_MS] from now, with a
    tap pending it turns into the double tap; and while the state is not OFF
    the loop does read it. *)
Theorem release_without_press_is_tap
    (w : World) (ts0 : touch_state_t) (ev : input_event) :
  is_release ev ->
  handle_event ev ts0 w = handle_event ev (mkTouch false 0) w /\
  eval (handle_event ev ts0) w = mkTouch false 0 /\
  (pending_single (globals w) = false ->
   exec (handle_event ev ts0) w =
     mkWorld
       (mkGlobals (ffmpeg_pid (globals w)) (ffmpeg_paused (globals w)) true
          (now w + DOUBLE_TAP_WINDOW_MS) (state (globals w)))
       (now w) (trace w) (inq w) (nq w) (env w)) /\
  (pending_single (globals w) = true ->
   exec (handle_event ev ts0) w = exec do_next_episode (exec cancel_single_tap w)) /\
  (forall (lp : Loop) (t : Z),
     0 <= tfd lp -> state (globals w) <> ST_OFF ->
     inq w = [(t, ev)] -> t <= now w ->
     exec (touch_step lp) w = exec (set_inq []) (exec (handle_event ev (ts lp)) w)).
Proof.
  intro Hrel. split; [| split; [| split; [| split]]].
  - rewrite !handle_event_release by exact Hrel. reflexivity.
  - unfold eval. rewrite handle_event_release by exact Hrel. reflexivity.
  - intro Hp. rewrite exec_handle_release by exact Hrel.
    apply on_release_idle. exact Hp.
  - intro Hp. rewrite exec_handle_release by exact Hrel.
    apply on_release_pending. exact Hp.
  - intros lp t Hfd Hst Hq Ht.
    apply Z.leb_le in Hfd, Ht.
    assert (Hoff : tv_state_eqb (state (globals w)) ST_OFF = false)
      by (destruct (state (globals w)); [contradiction | reflexivity | reflexivity]).
    destruct w as [g t0 tr q k e]. cbn [globals now inq] in Hq, Ht, Hoff.
    subst q.
    unfold exec, touch_step, touch_read, bind, get_globals.
    cbn [globals inq fst snd touch_drain]. rewrite Hfd, Hoff.
    cbn [andb negb inq touch_drain]. unfold bind, now_ms_monotonic.
    cbn [now]. rewrite Ht.
    destruct (handle_event ev (ts lp) _) as [ts' w'].
    reflexivity.
Qed.

Lemma release_without_press_is_tap_witness :
  is_release release /\
  exec (handle_event release (mkTouch false 0)) (world_playing (fun _ => true)) =
    mkWorld (mkGlobals 100 false true (5000 + DOUBLE_TAP_WINDOW_MS) ST_PLAYING)
      5000 [] [] O (env_demo (fun _ => true)).
Proof.
  split; [repeat split |].
  apply (release_without_press_is_tap (world_playing (fun _ => true))
           (mkTouch false 0) release).
  - repeat split.
  - reflexivity.
Defined.

(** C10: while PAUSED, a release that arrives while a single tap is pending
    only disarms the pending tap: [do_next_episode] returns at once, nothing
    is sent or logged, no time passes, the state stays PAUSED, and the
    expiry check that follows has nothing to fire. *)
Theorem double_tap_while_paused_is_dropped
    (w : World) (ts0 : touch_state_t) (ev : input_event) :
  is_release ev ->
  state (globals w) = ST_PAUSED ->
  pending_single (globals w) = true ->
  let w' := exec (handle_event ev ts0) w in
  w' = mkWorld
         (mkGlobals (ffmpeg_pid (globals w)) (ffmpeg_paused (globals w)) false 0
            ST_PAUSED)
         (now w) (trace w) (inq w) (nq w) (env w) /\
  exec do_next_episode (exec cancel_single_tap w) = exec cancel_single_tap w /\
  exec expire_step w' = w'.
Proof.
  intros Hrel Hst Hp. cbv zeta.
  rewrite (exec_handle_release ev ts0 w Hrel), (on_release_pending w Hp).
  assert (Hd : exec do_next_episode (exec cancel_single_tap w) =
               exec cancel_single_tap w).
  { apply do_next_episode_not_playing.
    change (state (globals (exec cancel_single_tap w))) with (state (globals w)).
    congruence. }
  rewrite Hd. split; [| split].
  - unfold exec, cancel_single_tap, set_pending, bind, get_globals, put_globals.
    cbn. rewrite Hst. reflexivity.
  - reflexivity.
  - apply expire_step_idle. reflexivity.
Qed.

Lemma double_tap_while_paused_is_dropped_witness :
  is_release release /\
  state (globals (world_pending ST_PAUSED)) = ST_PAUSED /\
  pending_single (globals (world_pending ST_PAUSED)) = true /\
  exec (handle_event release (mkTouch true 5100)) (world_pending ST_PAUSED) =
    mkWorld (mkGlobals 100 false false 0 ST_PAUSED) 5200 [] [] O
      (env_demo (fun _ => true)).
Proof.
  split; [repeat split |]. split; [reflexivity |]. split; [reflexivity |].
  apply (double_tap_while_paused_is_dropped (world_pending ST_PAUSED)
           (mkTouch true 5100) release).
  - repeat split.
  - reflexivity.
  - reflexivity.
Defined.

(** ** Taps further apart than the window *)


(** * Further properties of the code *)

(** ** Line endings and the chosen video *)

Lemma strip_eol_cons (c : ascii) (s : string) :
  strip_eol (String c s) =
    match strip_eol s with
    | EmptyString => if is_eol c then EmptyString else String c EmptyString
    | r => String c r
    end.
Proof. reflexivity. Qed.

Lemma strip_eol_split (s : string) :
  exists tail : string,
    s = (strip_eol s ++ tail)%string /\
    all_eol tail = true /\
    last_is_eol (strip_eol s) = false.
Proof.
  induction s as [| c s [tail [Hs [Ht Hl]]]].
  - exists EmptyString. repeat split.
  - rewrite strip_eol_cons. destruct (strip_eol s) as [| a r] eqn:Hr.
    + cbn in Hs. subst tail. destruct (is_eol c) eqn:Hc.
      * exists (String c s). cbn. rewrite Hc, Ht. repeat split.
      * exists s. cbn. rewrite Hc, Ht. repeat split.
    + exists tail. split; [| split].
      * cbn. cbn in Hs. rewrite <- Hs. reflexivity.
      * exact Ht.
      * exact Hl.
Qed.

(** X1: [strip_eol] removes exactly a trailing run of newline and carriage
    return characters: the line is the result followed by such characters
    only, and the result does not end in one. *)
Theorem strip_eol_spec (s : string) :
  exists tail : string,
    s = (strip_eol s ++ tail)%string /\
    all_eol tail = true /\
    last_is_eol (strip_eol s) = false.
Proof. exact (strip_eol_split s). Qed.

(** X2: what [pick_random_video] returns.  A result is the line read,
    stripped of its line ending, and it is neither empty nor ends in a
    newline; there is no result exactly when no line was read, the stripped
    line is empty, or the copy could not be allocated. *)
Theorem pick_random_video_result (w : World) :
  match eval pick_random_video w with
  | Some v =>
      exists line,
        env_video_line (env w) (nq w) = Some line /\
        v = strip_eol line /\ v <> EmptyString /\ last_is_eol v = false /\
        env_alloc (env w) (S (nq w)) = true
  | None =>
      env_video_line (env w) (nq w) = None \/
      exists line,
        env_video_line (env w) (nq w) = Some line /\
        (strip_eol line = EmptyString \/ env_alloc (env w) (S (nq w)) = false)
  end.
Proof.
  destruct w as [g t tr q k e].
  unfold eval, pick_random_video, bind, ask, ret. cbn [env nq fst snd].
  destruct (env_video_line e k) as [line |] eqn:Hl; [| left; reflexivity].
  destruct (strip_eol_split line) as [tail [_ [_ Hlast]]].
  destruct (strip_eol line) as [| c v] eqn:Hs; cbn [fst snd env nq].
  - right. exists line. auto.
  - destruct (env_alloc e (S k)) eqn:Ha; cbn [fst].
    + exists line. repeat split; auto. discriminate.
    + right. exists line. auto.
Qed.

(** ** The switch *)

(** X3: [switch_is_on] answers true exactly when a line was read from the
    status command and "level=1" occurs somewhere in it; a failed read
    counts as off. *)
Theorem switch_is_on_spec (w : World) :
  eval switch_is_on w = true <->
  exists (line : string) (m : nat),
    env_gpio_line (env w) (nq w) = Some line /\
    substring m 7 line = "level=1".
Proof.
  destruct w as [g t tr q k e].
  unfold eval, switch_is_on, bind, ask, ret, has_level1. cbn [env nq fst snd].
  destruct (env_gpio_line e k) as [line |] eqn:Hl; cbn [fst].
  - destruct (index 0 "level=1" line) as [m |] eqn:Hi.
    + split; [intros _ | reflexivity].
      exists line, m. split; [reflexivity |].
      apply (index_correct1 0 m "level=1" line Hi).
    + split; [discriminate |].
      intros [line' [m [Heq Hsub]]]. inversion Heq; subst line'.
      exfalso.
      apply (index_correct3 0 m "level=1" line Hi); [discriminate | lia | exact Hsub].
  - split; [discriminate |]. intros [line' [m [Heq _]]]. discriminate Heq.
Qed.

(** ** Time conversion *)

(** X4: the [timespec] that [ms_sleep] builds stands for exactly [ms]
    milliseconds under the conversion of [now_ms_monotonic], and it is a
    valid [timespec] (nanoseconds within a second) when [ms] is not
    negative. *)
Theorem timespec_round_trip (ms : Z) :
  timespec_to_ms (ms_to_timespec ms) = ms /\
  (0 <= ms ->
   0 <= fst (ms_to_timespec ms) /\
   0 <= snd (ms_to_timespec ms) < 1000000000).
Proof.
  unfold timespec_to_ms, ms_to_timespec. cbn [fst snd]. split.
  - rewrite Z.quot_mul by lia. pose proof (Z.quot_rem' ms 1000). lia.
  - intro Hms. rewrite Z.quot_div_nonneg, Z.rem_mod_nonneg by lia.
    pose proof (Z.mod_pos_bound ms 1000). pose proof (Z.div_pos ms 1000). lia.
Qed.

Lemma timespec_round_trip_witness :
  0 <= 1200 /\ ms_to_timespec 1200 = (1, 200000000) /\
  0 <= snd (ms_to_timespec 1200) < 1000000000.
Proof.
  split; [lia |]. split; [reflexivity |].
  apply (timespec_round_trip 1200). lia.
Defined.

(** ** Clearing the frame buffer *)




(** ** More on the playback supervisor *)

(** X6: [pause_ffmpeg] does nothing unless a process is tracked and alive;
    when one is, it sends SIGSTOP to the whole group and sets the pause
    flag, leaving the tracked pid and everything else alone. *)
Theorem pause_ffmpeg_spec (w : World) :
  (ffmpeg_pid (globals w) <= 0 -> exec pause_ffmpeg w = w) /\
  (0 < ffmpeg_pid (globals w) -> env_kill0 (env w) (nq w) = false ->
     globals (exec pause_ffmpeg w) = globals w /\
     trace (exec pause_ffmpeg w) = trace w /\
     now (exec pause_ffmpeg w) = now w) /\
  (0 < ffmpeg_pid (globals w) -> env_kill0 (env w) (nq w) = true ->
     trace (exec pause_ffmpeg w) =
       trace w ++ [EvKill (- ffmpeg_pid (globals w)) SIGSTOP] /\
     globals (exec pause_ffmpeg w) =
       mkGlobals (ffmpeg_pid (globals w)) true (pending_single (globals w))
         (pending_deadline_ms (globals w)) (state (globals w)) /\
     now (exec pause_ffmpeg w) = now w).
Proof.
  destruct w as [g t tr q k e]. cbn [globals now trace inq nq env].
  unfold exec, pause_ffmpeg, ffmpeg_alive, bind, get_globals, ask, emit,
    set_paused, set_ffmpeg, put_globals, ret.
  cbn [globals now trace inq nq env fst snd].
  split; [| split].
  - intro H. apply Z.ltb_ge in H. rewrite H. reflexivity.
  - intros H Ha. apply Z.ltb_lt in H. rewrite H. cbn. rewrite Ha. cbn. auto.
  - intros H Ha. apply Z.ltb_lt in H. rewrite H. cbn. rewrite Ha. cbn. auto.
Qed.

Lemma pause_ffmpeg_spec_witness :
  0 < ffmpeg_pid (globals (world_playing (fun _ => true))) /\
  env_kill0 (env (world_playing (fun _ => true))) O = true /\
  trace (exec pause_ffmpeg (world_playing (fun _ => true))) =
    [] ++ [EvKill (- 100) SIGSTOP].
Proof.
  split; [reflexivity | split; [reflexivity |]].
  apply (pause_ffmpeg_spec (world_playing (fun _ => true))); reflexivity.
Defined.

Lemma slept_app (a b : list event) : slept (a ++ b) = slept a + slept b.
Proof.
  induction a as [| e a IH]; [cbn; lia |].
  destruct e; cbn [app slept]; rewrite ?IH; lia.
Qed.

Lemma slept_repeat (ms : Z) (k : nat) :
  slept (repeat (EvSleep ms) k) = ms * Z.of_nat k.
Proof.
  induction k as [| k IH]; [cbn; lia |].
  cbn [repeat slept]. rewrite IH. lia.
Qed.

Lemma stop_playback_slept (w : World) :
  let w' := exec stop_playback w in
  ffmpeg_pid (globals w') <= 0 /\
  pending_single (globals w') = pending_single (globals w) /\
  pending_deadline_ms (globals w') = pending_deadline_ms (globals w) /\
  state (globals w') = state (globals w) /\
  (exists k : nat,
     (k <= 25)%nat /\ slept (trace w') = slept (trace w) + 30 * Z.of_nat k) /\
  (if ffmpeg_pid (globals w) <=? 0 then w' = w
   else ffmpeg_pid (globals w') = -1 /\ ffmpeg_paused (globals w') = false).
Proof.
  cbv zeta. split; [apply stop_playback_untracks |].
  destruct (framed_stop_playback w) as [_ _ Fp Fd Fs _ _].
  split; [exact Fp |]. split; [exact Fd |]. split; [exact Fs |].
  destruct (Z_lt_le_dec 0 (ffmpeg_pid (globals w))) as [H | H].
  - assert (Hb : (ffmpeg_pid (globals w) <=? 0) = false) by lia. rewrite Hb.
    rewrite stop_playback_spec by exact H. cbv zeta.
    pose proof (polls_le (env_kill0 (env w)) 25 (nq w)) as Hk.
    set (k := polls (env_kill0 (env w)) 25 (nq w)) in *.
    cbn [globals trace ffmpeg_pid ffmpeg_paused].
    split; [| split; reflexivity].
    exists k. split; [exact Hk |].
    rewrite !slept_app, slept_repeat. cbn [slept]. lia.
  - assert (Hb : (ffmpeg_pid (globals w) <=? 0) = true) by lia. rewrite Hb.
    rewrite stop_playback_idle by exact H.
    split; [exists O; split; [lia | cbn; lia] | reflexivity].
Qed.

(** X7: from any world [stop_playback] ends with nothing tracked, asks for
    at most 25 sleeps of 30 ms (750 ms of sleep in all), and keeps the
    pending tap, its deadline and the power state; with nothing tracked it
    does nothing at all, and otherwise it clears the tracking and the pause
    flag. *)
Theorem stop_playback_bounded (w : World) :
  let w' := exec stop_playback w in
  ffmpeg_pid (globals w') <= 0 /\
  pending_single (globals w') = pending_single (globals w) /\
  pending_deadline_ms (globals w') = pending_deadline_ms (globals w) /\
  state (globals w') = state (globals w) /\
  (exists k : nat,
     (k <= 25)%nat /\ slept (trace w') = slept (trace w) + 30 * Z.of_nat k) /\
  (if ffmpeg_pid (globals w) <=? 0 then w' = w
   else ffmpeg_pid (globals w') = -1 /\ ffmpeg_paused (globals w') = false).
Proof. exact (stop_playback_slept w). Qed.

Lemma start_playback_idle_cases (w : World) :
  ffmpeg_pid (globals w) <= 0 ->
  let w' := exec start_playback w in
  now w' = now w /\
  ((globals w' = globals w /\
    trace w' = trace w ++ [EvLog ("no videos found in " ++ VIDEO_DIR)%string]) \/
   (exists v, globals w' = globals w /\
      trace w' = trace w ++ [EvLog ("play: " ++ v)%string]) \/
   (exists v pid, 0 < pid /\
      globals w' =
        mkGlobals pid false (pending_single (globals w))
          (pending_deadline_ms (globals w)) (state (globals w)) /\
      trace w' =
        trace w ++ [EvLog ("play: " ++ v)%string; EvSpawnPlayer v pid;
                    EvSetpgid pid pid])).
Proof.
  intro Hpid. cbv zeta.
  unfold start_playback. rewrite exec_bind, (stop_playback_idle w Hpid).
  destruct w as [g t tr q k e].
  unfold exec, pick_random_video, bind, ask, ret, log_console, emit, set_ffmpeg,
    get_globals, put_globals.
  cbn [globals now trace inq nq env fst snd].
  destruct (env_video_line e k) as [line |];
    [| cbn; split; [reflexivity | left; split; reflexivity]].
  destruct (strip_eol line) as [| c v];
    [cbn; split; [reflexivity | left; split; reflexivity] |].
  cbn [globals now trace inq nq env fst snd].
  destruct (env_alloc e (S k));
    [| cbn; split; [reflexivity | left; split; reflexivity]].
  cbn [globals now trace inq nq env fst snd].
  destruct (0 <? env_fork e (S (S k))) eqn:Hf; cbn.
  - split; [reflexivity |]. right. right.
    exists (String c v), (env_fork e (S (S k))).
    apply Z.ltb_lt in Hf. split; [exact Hf |]. split; [reflexivity |].
    rewrite <- !app_assoc. reflexivity.
  - split; [reflexivity |]. right. left. exists (String c v).
    split; reflexivity.
Qed.

(** X8: the outcomes of [start_playback].  It first stops whatever is
    tracked; then either no video is chosen and it only logs that, or the
    [fork] fails and nothing is tracked, or the new player is spawned, made
    the leader of its own process group and tracked with the pause flag
    cleared.  The pending tap, its deadline and the power state are never
    touched, and it asks for no sleep beyond that of the stop. *)
Theorem start_playback_outcome (w : World) :
  let w1 := exec stop_playback w in
  let w' := exec start_playback w in
  pending_single (globals w') = pending_single (globals w) /\
  pending_deadline_ms (globals w') = pending_deadline_ms (globals w) /\
  state (globals w') = state (globals w) /\
  slept (trace w') = slept (trace w1) /\
  ((ffmpeg_pid (globals w') <= 0 /\
    trace w' = trace w1 ++ [EvLog ("no videos found in " ++ VIDEO_DIR)%string]) \/
   (exists v, ffmpeg_pid (globals w') <= 0 /\
      trace w' = trace w1 ++ [EvLog ("play: " ++ v)%string]) \/
   (exists v pid, 0 < pid /\
      ffmpeg_pid (globals w') = pid /\ ffmpeg_paused (globals w') = false /\
      trace w' =
        trace w1 ++ [EvLog ("play: " ++ v)%string; EvSpawnPlayer v pid;
                     EvSetpgid pid pid])).
Proof.
  cbv zeta.
  destruct (framed_start_playback w) as [_ _ Fp Fd Fs _ _].
  split; [exact Fp |]. split; [exact Fd |]. split; [exact Fs |].
  rewrite start_playback_after_stop.
  pose proof (stop_playback_untracks w) as Hun.
  destruct (start_playback_idle_cases (exec stop_playback w) Hun)
    as [_ [[Hg Ht] | [[v [Hg Ht]] | [v [pid [Hp [Hg Ht]]]]]]].
  - rewrite Hg, Ht, slept_app. cbn [slept]. split; [lia |]. left. auto.
  - rewrite Hg, Ht, slept_app. cbn [slept]. split; [lia |].
    right. left. exists v. auto.
  - rewrite Hg, Ht, slept_app. cbn [slept globals ffmpeg_pid ffmpeg_paused].
    split; [lia |]. right. right. exists v, pid. auto.
Qed.

(** ** More on the transition effect *)




(** ** More on the power state machine *)

(** X10: toggling pause twice brings the power state back, and never
    changes which process is tracked.  When a live player is tracked while
    PLAYING, the two toggles send SIGSTOP and then SIGCONT to its group and
    leave the pause flag cleared. *)
Theorem do_pause_toggle_twice (w : World) :
  let w2 := exec do_pause_toggle (exec do_pause_toggle w) in
  state (globals w2) = state (globals w) /\
  ffmpeg_pid (globals w2) = ffmpeg_pid (globals w) /\
  (state (globals w) = ST_PLAYING ->
   0 < ffmpeg_pid (globals w) ->
   env_kill0 (env w) (nq w) = true ->
   env_kill0 (env w) (S (nq w)) = true ->
   ffmpeg_paused (globals w2) = false /\
   trace w2 =
     trace w ++ [EvKill (- ffmpeg_pid (globals w)) SIGSTOP; EvLog "pause";
                 EvKill (- ffmpeg_pid (globals w)) SIGCONT; EvLog "resume"]).
Proof.
  cbv zeta.
  destruct (do_pause_toggle_globals w) as [Hp1 [_ Hs1]].
  destruct (do_pause_toggle_globals (exec do_pause_toggle w)) as [Hp2 [_ Hs2]].
  split; [| split].
  - rewrite Hs2, Hs1. destruct (state (globals w)); reflexivity.
  - congruence.
  - destruct w as [[pid pa pe de st] t tr q k e].
    cbn [globals env nq state ffmpeg_pid trace]. intros Hst Hpid Ha1 Ha2.
    subst st. apply Z.ltb_lt in Hpid.
    unfold exec, do_pause_toggle, pause_ffmpeg, resume_ffmpeg, ffmpeg_alive, bind,
      get_globals, ask, ret, emit, log_console, set_paused, set_ffmpeg, set_state,
      put_globals.
    cbn. rewrite Hpid. cbn. rewrite Ha1. cbn. rewrite Hpid. cbn. rewrite Ha2. cbn.
    split; [reflexivity |]. rewrite <- !app_assoc. reflexivity.
Qed.

Lemma do_pause_toggle_twice_witness :
  state (globals (world_playing (fun _ => true))) = ST_PLAYING /\
  0 < ffmpeg_pid (globals (world_playing (fun _ => true))) /\
  trace (exec do_pause_toggle (exec do_pause_toggle (world_playing (fun _ => true)))) =
    [] ++ [EvKill (- 100) SIGSTOP; EvLog "pause"; EvKill (- 100) SIGCONT; EvLog "resume"].
Proof.
  split; [reflexivity |]. split; [reflexivity |].
  apply (do_pause_toggle_twice (world_playing (fun _ => true))); reflexivity.
Defined.



(** ** More on the reaper *)

(** X12: children other than the tracked leader (the noise process, a
    player already replaced) are reaped without any effect on the
    controller. *)
Theorem reap_loop_ignores_untracked (ps : list Z) (w : World) :
  (forall p, In p ps -> p <> ffmpeg_pid (globals w)) ->
  exec (reap_loop ps) w = w.
Proof.
  induction ps as [| p ps IH]; intro Hne.
  - reflexivity.
  - cbn [reap_loop]. destruct (0 <? p); [| reflexivity].
    rewrite exec_bind. cbv beta. rewrite reap_one_exec.
    assert (Hp : (p =? ffmpeg_pid (globals w)) = false)
      by (apply Z.eqb_neq, Hne; left; reflexivity).
    rewrite Hp. apply IH. intros p' Hin. apply Hne. right. exact Hin.
Qed.

Lemma reap_loop_ignores_untracked_witness :
  (forall p, In p [148; 7] ->
             p <> ffmpeg_pid (globals (world_playing (fun _ => true)))) /\
  exec (reap_loop [148; 7]) (world_playing (fun _ => true)) =
    world_playing (fun _ => true).
Proof.
  assert (H : forall p, In p [148; 7] ->
                        p <> ffmpeg_pid (globals (world_playing (fun _ => true)))).
  { intros p [Hp | [Hp | []]]; subst p; cbn; lia. }
  split; [exact H |].
  apply (reap_loop_ignores_untracked [148; 7] (world_playing (fun _ => true)) H).
Defined.

(** ** The loop body *)

Lemma tv_state_eqb_spec (a b : tv_state_t) : tv_state_eqb a b = true <-> a = b.
Proof. destruct a, b; cbn; split; congruence. Qed.

(** X13: the switch is polled at most once per [SWITCH_POLL_MS]: earlier
    than that the step does nothing.  When it does poll, the power state
    afterwards is OFF exactly when the switch read off (a failed read counts
    as off), and the time of the poll is recorded. *)
Theorem switch_poll_follows_switch (cur : Z) (lp : Loop) (w : World) :
  (cur - last_switch_poll lp < SWITCH_POLL_MS ->
   switch_poll cur lp w = (lp, w)) /\
  (SWITCH_POLL_MS <= cur - last_switch_poll lp ->
   (state (globals (exec (switch_poll cur lp) w)) = ST_OFF <->
    eval switch_is_on w = false) /\
   last_switch_poll (eval (switch_poll cur lp) w) = cur).
Proof.
  split.
  - intro H. unfold switch_poll.
    assert (Hb : (cur - last_switch_poll lp >=? SWITCH_POLL_MS) = false) by lia.
    rewrite Hb. reflexivity.
  - intro H. unfold switch_poll.
    assert (Hb : (cur - last_switch_poll lp >=? SWITCH_POLL_MS) = true) by lia.
    rewrite Hb. rewrite exec_bind, eval_bind. cbv beta.
    set (on := eval switch_is_on w).
    set (w1 := exec switch_is_on w).
    assert (Hg1 : globals w1 = globals w).
    { unfold w1, exec, switch_is_on, bind, ask.
      destruct (env_gpio_line (env w) (nq w)); reflexivity. }
    rewrite exec_bind, eval_bind. cbv beta.
    change (eval get_globals w1) with (globals w1).
    change (exec get_globals w1) with w1.
    rewrite exec_bind, eval_bind. cbv beta.
    split; [| reflexivity].
    change (exec (ret ?a) ?v) with v.
    destruct on; cbn [negb andb].
    + destruct (state (globals w1)) eqn:Hs1; cbn [tv_state_eqb].
      * rewrite do_power_on_exec. cbn. split; discriminate.
      * change (exec (ret tt) w1) with w1. rewrite Hs1. split; discriminate.
      * change (exec (ret tt) w1) with w1. rewrite Hs1. split; discriminate.
    + destruct (state (globals w1)) eqn:Hs1; cbn [tv_state_eqb negb].
      * change (exec (ret tt) w1) with w1. rewrite Hs1. split; reflexivity.
      * rewrite do_power_off_exec. cbn. split; reflexivity.
      * rewrite do_power_off_exec. cbn. split; reflexivity.
Qed.

Lemma switch_poll_follows_switch_witness :
  SWITCH_POLL_MS <= 5000 - 0 /\
  state (globals (exec (switch_poll 5000 (mkLoop 3 (mkTouch false 0) 0))
                    (world0 env_empty []))) <> ST_OFF.
Proof.
  split; [unfold SWITCH_POLL_MS; lia |].
  intro Hoff.
  apply (switch_poll_follows_switch 5000 (mkLoop 3 (mkTouch false 0) 0)
           (world0 env_empty [])) in Hoff.
  - vm_compute in Hoff. discriminate Hoff.
  - unfold SWITCH_POLL_MS. cbn. lia.
Defined.

(** Events other than a release of the touch button change nothing. *)
Lemma handle_event_other (ev : input_event) (ts0 : touch_state_t) (w : World) :
  ~ is_release ev -> exec (handle_event ev ts0) w = w.
Proof.
  intro Hn. unfold exec, handle_event, bind, now_ms_monotonic, ret.
  destruct (ev_type ev =? EV_KEY) eqn:Ht; [| reflexivity].
  destruct (ev_code ev =? BTN_TOUCH) eqn:Hc; [| reflexivity].
  cbn [andb]. destruct (ev_value ev =? 1); [reflexivity |].
  destruct (ev_value ev =? 0) eqn:Hv; [| reflexivity].
  exfalso. apply Hn. unfold is_release. lia.
Qed.

Lemma touch_drain_other (q : list (Z * input_event)) :
  forall (ts0 : touch_state_t) (w : World),
    (forall t ev, In (t, ev) q -> ~ is_release ev) ->
    exec (touch_drain q ts0) w = w.
Proof.
  induction q as [| [t ev] q IH]; intros ts0 w Hq.
  - reflexivity.
  - cbn [touch_drain]. rewrite exec_bind. cbv beta.
    change (exec now_ms_monotonic w) with w.
    change (eval now_ms_monotonic w) with (now w).
    destruct (t <=? now w); [| reflexivity].
    rewrite exec_bind. cbv beta.
    rewrite handle_event_other by (apply (Hq t); left; reflexivity).
    apply IH. intros t' ev' Hin. apply (Hq t'). right. exact Hin.
Qed.

(** X14: only releases act.  Reading a queue that holds presses, motion
    and other events but no release of the touch button changes neither the
    globals nor the clock, and causes no event. *)
Theorem touch_read_without_release (ts0 : touch_state_t) (w : World) :
  (forall t ev, In (t, ev) (inq w) -> ~ is_release ev) ->
  globals (exec (touch_read ts0) w) = globals w /\
  trace (exec (touch_read ts0) w) = trace w /\
  now (exec (touch_read ts0) w) = now w.
Proof.
  intro Hq. unfold touch_read.
  rewrite exec_bind. cbv beta.
  change (exec (fun v : World => (inq v, v)) w) with w.
  change (eval (fun v : World => (inq v, v)) w) with (inq w).
  rewrite exec_bind. cbv beta. rewrite exec_bind. cbv beta.
  rewrite (touch_drain_other (inq w) ts0 w Hq).
  repeat split.
Qed.

Lemma touch_read_without_release_witness :
  (forall t ev, In (t, ev) [(1, press); (2, mkEvent 3 0 117)] -> ~ is_release ev) /\
  globals (exec (touch_read (mkTouch false 0))
             (mkWorld globals0 10 [] [(1, press); (2, mkEvent 3 0 117)] O env_empty))
    = globals0.
Proof.
  assert (H : forall t ev, In (t, ev) [(1, press); (2, mkEvent 3 0 117)] ->
                           ~ is_release ev).
  { intros t ev [Hin | [Hin | []]]; inversion Hin; subst;
      intros [Ht [Hc Hv]]; cbn in *; discriminate. }
  split; [exact H |].
  apply (touch_read_without_release (mkTouch false 0)
           (mkWorld globals0 10 [] [(1, press); (2, mkEvent 3 0 117)] O env_empty) H).
Defined.

(** X15: the expiry check fires a pending tap at most once: before the
    deadline it does nothing, and running it a second time right after it
    has run never does anything more. *)
Theorem expire_step_fires_once (w : World) :
  (pending_single (globals w) = true ->
   now w < pending_deadline_ms (globals w) -> exec expire_step w = w) /\
  (pending_single (globals w) = true ->
   pending_deadline_ms (globals w) <= now w ->
   exec expire_step w = exec do_pause_toggle (exec cancel_single_tap w)) /\
  exec expire_step (exec expire_step w) = exec expire_step w.
Proof.
  assert (Hfire : pending_single (globals w) = true ->
                  pending_deadline_ms (globals w) <= now w ->
                  exec expire_step w = exec do_pause_toggle (exec cancel_single_tap w)).
  { intros Hp Hd. unfold expire_step.
    rewrite exec_bind. cbv beta.
    change (exec get_globals w) with w. change (eval get_globals w) with (globals w).
    rewrite exec_bind. cbv beta.
    change (exec now_ms_monotonic w) with w.
    change (eval now_ms_monotonic w) with (now w).
    assert (Hb : (now w >=? pending_deadline_ms (globals w)) = true) by lia.
    rewrite Hp, Hb. cbn [andb]. rewrite exec_bind. reflexivity. }
  assert (Hwait : pending_single (globals w) = true ->
                  now w < pending_deadline_ms (globals w) -> exec expire_step w = w).
  { intros Hp Hd. unfold exec, expire_step, bind, get_globals, now_ms_monotonic.
    assert (Hb : (now w >=? pending_deadline_ms (globals w)) = false) by lia.
    rewrite Hp, Hb. reflexivity. }
  split; [exact Hwait |]. split; [exact Hfire |].
  destruct (pending_single (globals w)) eqn:Hp.
  - destruct (Z_lt_le_dec (now w) (pending_deadline_ms (globals w))) as [Hd | Hd].
    + rewrite (Hwait eq_refl Hd). apply (Hwait eq_refl Hd).
    + rewrite (Hfire eq_refl Hd). apply expire_step_idle.
      assert (Hk : forall v, pending_single (globals (exec do_pause_toggle v)) =
                             pending_single (globals v)).
      { intros [[pid pa pe de st] t tr q k e].
        unfold exec, do_pause_toggle, pause_ffmpeg, resume_ffmpeg, ffmpeg_alive,
          bind, get_globals, ask, ret, emit, log_console, set_paused, set_ffmpeg,
          set_state, put_globals.
        destruct st; cbn; auto;
          destruct (0 <? pid); cbn; auto; destruct (env_kill0 e k); cbn; auto. }
      rewrite Hk. reflexivity.
  - rewrite (expire_step_idle w Hp). apply (expire_step_idle w Hp).
Qed.

Lemma expire_step_fires_once_witness :
  pending_single (globals (world_pending ST_PLAYING)) = true /\
  now (world_pending ST_PLAYING) < pending_deadline_ms (globals (world_pending ST_PLAYING)) /\
  exec expire_step (world_pending ST_PLAYING) = world_pending ST_PLAYING.
Proof.
  split; [reflexivity |]. split; [reflexivity |].
  apply (expire_step_fires_once (world_pending ST_PLAYING)); reflexivity.
Defined.

(** ** The daemon as a whole *)

Lemma is_release_dec (ev : input_event) : {is_release ev} + {~ is_release ev}.
Proof.
  unfold is_release.
  destruct (Z.eq_dec (ev_type ev) EV_KEY); [| right; tauto].
  destruct (Z.eq_dec (ev_code ev) BTN_TOUCH); [| right; tauto].
  destruct (Z.eq_dec (ev_value ev) 0); [left | right]; tauto.
Qed.

Lemma handle_event_state (ev : input_event) (ts0 : touch_state_t) (w : World) :
  state (globals (exec (handle_event ev ts0) w)) = state (globals w).
Proof.
  destruct (is_release_dec ev) as [Hr | Hr].
  - rewrite exec_handle_release by exact Hr.
    destruct (pending_single (globals w)) eqn:Hp.
    + rewrite on_release_pending by exact Hp.
      rewrite (fr_state _ _ (framed_do_next_episode _)). reflexivity.
    + rewrite on_release_idle by exact Hp. reflexivity.
  - rewrite handle_event_other by exact Hr. reflexivity.
Qed.

Lemma touch_drain_state (q : list (Z * input_event)) :
  forall (ts0 : touch_state_t) (w : World),
    state (globals (exec (touch_drain q ts0) w)) = state (globals w).
Proof.
  induction q as [| [t ev] q IH]; intros ts0 w.
  - reflexivity.
  - cbn [touch_drain]. rewrite exec_bind. cbv beta.
    change (exec now_ms_monotonic w) with w.
    change (eval now_ms_monotonic w) with (now w).
    destruct (t <=? now w); [| reflexivity].
    rewrite exec_bind. cbv beta. rewrite IH. apply handle_event_state.
Qed.

Lemma touch_step_state (lp : Loop) (w : World) :
  state (globals (exec (touch_step lp) w)) = state (globals w).
Proof.
  unfold touch_step. rewrite exec_bind. cbv beta.
  change (exec get_globals w) with w. change (eval get_globals w) with (globals w).
  destruct ((0 <=? tfd lp) && negb (tv_state_eqb (state (globals w)) ST_OFF));
    [| reflexivity].
  rewrite exec_bind. cbv beta. change (exec (ret ?a) ?v) with v.
  unfold touch_read. rewrite exec_bind. cbv beta.
  change (exec (fun v : World => (inq v, v)) w) with w.
  rewrite exec_bind. cbv beta. rewrite exec_bind. cbv beta.
  change (exec (ret ?a) ?v) with v.
  change (state (globals (exec (set_inq ?q) ?v))) with (state (globals v)).
  apply touch_drain_state.
Qed.

Lemma touch_step_off (lp : Loop) (w : World) :
  state (globals w) = ST_OFF -> exec (touch_step lp) w = w.
Proof.
  intro Hoff. unfold exec, touch_step, bind, get_globals. rewrite Hoff.
  cbn [tv_state_eqb negb]. rewrite andb_false_r. reflexivity.
Qed.

Lemma framed_reap_one (p : Z) : framed (reap_one p).
Proof.
  intro w. rewrite reap_one_exec.
  destruct (p =? ffmpeg_pid (globals w)); [| apply frame_refl].
  cbv zeta. destruct (state (globals w)).
  - apply (framed_set_ffmpeg (-1) false w).
  - eapply frame_trans; [apply (framed_set_ffmpeg (-1) false w) |].
    eapply frame_trans; [| apply framed_start_playback].
    apply framed_log; reflexivity.
  - apply (framed_set_ffmpeg (-1) false w).
Qed.

Lemma framed_reap_loop (ps : list Z) : framed (reap_loop ps).
Proof.
  induction ps as [| p ps IH]; cbn [reap_loop].
  - apply framed_ret.
  - apply framed_if; [| apply framed_ret].
    apply framed_bind; [apply framed_reap_one | intros _; exact IH].
Qed.

Lemma framed_reap_children : framed reap_children.
Proof.
  unfold reap_children. apply framed_bind; [apply framed_ask |].
  intro ps. apply framed_reap_loop.
Qed.

Lemma reap_children_off_idle (w : World) :
  off_is_idle w -> off_is_idle (exec reap_children w).
Proof.
  intros Inv Hoff.
  destruct (framed_reap_children w) as [_ _ Fp _ Fs _ _].
  rewrite Fs in Hoff. destruct (Inv Hoff) as [Hpid Hpen].
  split; [| congruence].
  unfold reap_children. rewrite exec_bind. cbv beta.
  rewrite reap_loop_idle by exact Hpid. exact Hpid.
Qed.

Lemma switch_poll_off_idle (cur : Z) (lp : Loop) (w : World) :
  off_is_idle w -> off_is_idle (exec (switch_poll cur lp) w).
Proof.
  intro Inv. unfold switch_poll.
  destruct (cur - last_switch_poll lp >=? SWITCH_POLL_MS); [| exact Inv].
  rewrite exec_bind. cbv beta.
  set (on := eval switch_is_on w).
  set (w1 := exec switch_is_on w).
  assert (Hg1 : globals w1 = globals w).
  { unfold w1, exec, switch_is_on, bind, ask.
    destruct (env_gpio_line (env w) (nq w)); reflexivity. }
  assert (Inv1 : off_is_idle w1) by (unfold off_is_idle; rewrite Hg1; exact Inv).
  rewrite exec_bind. cbv beta.
  change (eval get_globals w1) with (globals w1).
  change (exec get_globals w1) with w1.
  rewrite exec_bind. cbv beta. change (exec (ret ?a) ?v) with v.
  destruct (negb on && negb (tv_state_eqb (state (globals w1)) ST_OFF)).
  - rewrite do_power_off_exec. intros _. cbn.
    split; [apply stop_playback_untracks | reflexivity].
  - destruct (on && tv_state_eqb (state (globals w1)) ST_OFF).
    + rewrite do_power_on_exec. cbn. discriminate.
    + exact Inv1.
Qed.

Lemma expire_step_cases (w : World) :
  exec expire_step w = w \/
  exec expire_step w = exec do_pause_toggle (exec cancel_single_tap w).
Proof.
  unfold expire_step. rewrite exec_bind. cbv beta.
  change (exec get_globals w) with w. change (eval get_globals w) with (globals w).
  rewrite exec_bind. cbv beta.
  change (exec now_ms_monotonic w) with w.
  destruct (pending_single (globals w) &&
            (eval now_ms_monotonic w >=? pending_deadline_ms (globals w))).
  - right. rewrite exec_bind. reflexivity.
  - left. reflexivity.
Qed.

Lemma expire_step_off_idle (w : World) :
  off_is_idle w -> off_is_idle (exec expire_step w).
Proof.
  intros Inv. destruct (expire_step_cases w) as [H | H]; rewrite H; [exact Inv |].
  intro Hoff.
  destruct (do_pause_toggle_globals (exec cancel_single_tap w)) as [_ [_ Hs]].
  rewrite Hs in Hoff.
  change (state (globals (exec cancel_single_tap w))) with (state (globals w)) in Hoff.
  destruct (state (globals w)) eqn:Hst; try discriminate Hoff.
  rewrite do_pause_toggle_off by exact Hst.
  destruct (Inv Hst) as [Hpid _]. split; [exact Hpid | reflexivity].
Qed.

Lemma tick_off_idle (lp : Loop) (w : World) :
  off_is_idle w -> off_is_idle (exec (tick lp) w).
Proof.
  intro Inv. unfold tick.
  rewrite exec_bind. cbv beta. change (exec now_ms_monotonic w) with w.
  rewrite exec_bind. cbv beta.
  apply reap_children_off_idle in Inv.
  set (w1 := exec reap_children w) in *.
  rewrite exec_bind. cbv beta.
  apply (switch_poll_off_idle (eval now_ms_monotonic w) lp) in Inv.
  set (lp1 := eval (switch_poll (eval now_ms_monotonic w) lp) w1).
  set (w2 := exec (switch_poll (eval now_ms_monotonic w) lp) w1) in *.
  rewrite exec_bind. cbv beta.
  assert (Inv3 : off_is_idle (exec (touch_step lp1) w2)).
  { intro Hoff. rewrite touch_step_state in Hoff.
    rewrite (touch_step_off lp1 w2 Hoff). exact (Inv Hoff). }
  set (w3 := exec (touch_step lp1) w2) in *.
  rewrite exec_bind. cbv beta.
  apply expire_step_off_idle in Inv3.
  rewrite exec_bind. cbv beta. change (exec (ret ?a) ?v) with v.
  exact Inv3.
Qed.

Lemma ticks_off_idle (n : nat) :
  forall (lp : Loop) (w : World), off_is_idle w -> off_is_idle (exec (ticks n lp) w).
Proof.
  induction n as [| n IH]; intros lp w Inv.
  - exact Inv.
  - cbn [ticks]. rewrite exec_bind. cbv beta. apply IH, tick_off_idle, Inv.
Qed.

Lemma main_init_off_idle (w : World) : off_is_idle (exec main_init w).
Proof.
  unfold main_init. rewrite exec_bind. cbv beta.
  rewrite exec_bind. cbv beta. rewrite exec_bind. cbv beta.
  rewrite exec_bind. cbv beta. change (exec (ret ?a) ?v) with v.
  match goal with |- context [if ?b then do_power_on else do_power_off] => destruct b end.
  - rewrite do_power_on_exec. intro Hoff. cbn in Hoff. discriminate Hoff.
  - rewrite do_power_off_exec. intros _. cbn.
    split; [apply stop_playback_untracks | reflexivity].
Qed.

(** X16: at the end of every loop iteration, for every environment and
    every stream of touch events, the state OFF goes with no tracked
    process and no pending tap. *)
Theorem daemon_off_is_idle (n : nat) (e : Env) (q : list (Z * input_event)) :
  state (globals (run_daemon n e q)) = ST_OFF ->
  ffmpeg_pid (globals (run_daemon n e q)) <= 0 /\
  pending_single (globals (run_daemon n e q)) = false.
Proof.
  assert (H : off_is_idle (run_daemon n e q)).
  { unfold run_daemon. rewrite exec_bind. cbv beta.
    apply ticks_off_idle, main_init_off_idle. }
  exact H.
Qed.

Lemma daemon_off_is_idle_witness :
  state (globals (run_daemon 5 env_off [(1, press); (2, release)])) = ST_OFF /\
  ffmpeg_pid (globals (run_daemon 5 env_off [(1, press); (2, release)])) <= 0 /\
  pending_single (globals (run_daemon 5 env_off [(1, press); (2, release)])) = false.
Proof.
  split; [vm_compute; reflexivity |].
  apply (daemon_off_is_idle 5 env_off [(1, press); (2, release)]).
  vm_compute. reflexivity.
Defined.

(** ** Whom the daemon signals *)

Lemma safe_step (w w' : World) (d : list event) :
  signals_safe w ->
  trace w' = trace w ++ d ->
  (forall t s, In (EvKill t s) d ->
               0 < ffmpeg_pid (globals w) /\ t = - ffmpeg_pid (globals w)) ->
  (0 < ffmpeg_pid (globals w') ->
   ffmpeg_pid (globals w') = ffmpeg_pid (globals w) \/
   exists v, In (EvSpawnPlayer v (ffmpeg_pid (globals w'))) (trace w')) ->
  signals_safe w'.
Proof.
  intros [Hk Hp] Ht Hd Hpid. split.
  - intros a t s b Heq. rewrite Ht in Heq.
    assert (Hnew : In (EvKill t s) d ->
                   forall a', (forall x, In x (trace w) -> In x a') ->
                   t < 0 /\ exists v, In (EvSpawnPlayer v (- t)) a').
    { intros Hin a' Hsub. destruct (Hd t s Hin) as [Hpos Htt]. subst t.
      split; [lia |]. rewrite Z.opp_involutive.
      destruct (Hp Hpos) as [v Hv]. exists v. apply Hsub, Hv. }
    apply app_eq_app in Heq. destruct Heq as [l [[H1 H2] | [H1 H2]]].
    + destruct l as [| x l].
      * cbn in H2. apply Hnew.
        -- rewrite <- H2. left. reflexivity.
        -- intros x Hx. rewrite H1, app_nil_r in Hx. exact Hx.
      * cbn in H2. inversion H2; subst x. apply (Hk a t s l). exact H1.
    + apply Hnew.
      * rewrite H2. apply in_or_app. right. left. reflexivity.
      * intros x Hx. rewrite H1. apply in_or_app. left. exact Hx.
  - intro Hpos. destruct (Hpid Hpos) as [Hsame | Hnew]; [| exact Hnew].
    rewrite Hsame in *. destruct (Hp Hpos) as [v Hv].
    exists v. rewrite Ht. apply in_or_app. left. exact Hv.
Qed.

(** A step that sends no signal and keeps the tracked pid. *)
Lemma safe_quiet (w w' : World) (d : list event) :
  signals_safe w ->
  trace w' = trace w ++ d ->
  forallb (fun e => negb (is_kill e)) d = true ->
  ffmpeg_pid (globals w') = ffmpeg_pid (globals w) ->
  signals_safe w'.
Proof.
  intros Hs Ht Hd Hp. apply (safe_step w w' d Hs Ht).
  - intros t s Hin. rewrite forallb_forall in Hd.
    specialize (Hd _ Hin). discriminate Hd.
  - intros _. left. exact Hp.
Qed.

Lemma keeps_safe_ret {A : Type} (a : A) : keeps_safe (ret a).
Proof. intros w H. exact H. Qed.

Lemma keeps_safe_bind {A B : Type} (c : M A) (k : A -> M B) :
  keeps_safe c -> (forall a, keeps_safe (k a)) -> keeps_safe (bind c k).
Proof. intros Hc Hk w H. rewrite exec_bind. apply Hk, Hc, H. Qed.

Lemma keeps_safe_if {A : Type} (b : bool) (c1 c2 : M A) :
  keeps_safe c1 -> keeps_safe c2 -> keeps_safe (if b then c1 else c2).
Proof. destruct b; auto. Qed.

Lemma keeps_safe_get_globals : keeps_safe get_globals.
Proof. intros w H. exact H. Qed.

Lemma keeps_safe_now : keeps_safe now_ms_monotonic.
Proof. intros w H. exact H. Qed.

Lemma keeps_safe_ask {A : Type} (f : Env -> nat -> A) : keeps_safe (ask f).
Proof.
  intros w H. apply (safe_quiet w _ [] H); try reflexivity.
  cbn. rewrite app_nil_r. reflexivity.
Qed.

Lemma keeps_safe_emit (e : event) : is_kill e = false -> keeps_safe (emit e).
Proof.
  intros He w H. apply (safe_quiet w _ [e] H); try reflexivity.
  cbn. rewrite He. reflexivity.
Qed.

Lemma keeps_safe_log (m : string) : keeps_safe (log_console m).
Proof. apply keeps_safe_emit. reflexivity. Qed.

Lemma keeps_safe_sleep (ms : Z) : keeps_safe (ms_sleep ms).
Proof. intros w H. apply (safe_quiet w _ [EvSleep ms] H); reflexivity. Qed.

Lemma keeps_safe_set_inq (q : list (Z * input_event)) : keeps_safe (set_inq q).
Proof.
  intros w H. apply (safe_quiet w _ [] H); try reflexivity.
  cbn. rewrite app_nil_r. reflexivity.
Qed.

Lemma keeps_safe_set_pending (p : bool) (d : Z) : keeps_safe (set_pending p d).
Proof.
  intros w H. apply (safe_quiet w _ [] H); try reflexivity.
  cbn. rewrite app_nil_r. reflexivity.
Qed.

Lemma keeps_safe_set_state (s : tv_state_t) : keeps_safe (set_state s).
Proof.
  intros w H. apply (safe_quiet w _ [] H); try reflexivity.
  cbn. rewrite app_nil_r. reflexivity.
Qed.

Lemma keeps_safe_untrack (paused : bool) : keeps_safe (set_ffmpeg (-1) paused).
Proof.
  intros w H. apply (safe_step w _ [] H).
  - cbn. rewrite app_nil_r. reflexivity.
  - intros t s [].
  - cbn. lia.
Qed.

Lemma keeps_safe_stop_playback : keeps_safe stop_playback.
Proof.
  intros w H. destruct (Z_lt_le_dec 0 (ffmpeg_pid (globals w))) as [Hp | Hp].
  - rewrite stop_playback_spec by exact Hp. cbv zeta.
    eapply (safe_step w _ _ H).
    + cbn [trace]. reflexivity.
    + intros t s Hin. split; [exact Hp |].
      cbn in Hin. destruct Hin as [Hin | Hin]; [inversion Hin; reflexivity |].
      apply in_app_or in Hin. destruct Hin as [Hin | Hin].
      * apply repeat_spec in Hin. discriminate Hin.
      * destruct Hin as [Hin | [Hin | []]]; inversion Hin; reflexivity.
    + cbn. lia.
  - rewrite stop_playback_idle by exact Hp. exact H.
Qed.

Lemma keeps_safe_pause_ffmpeg : keeps_safe pause_ffmpeg.
Proof.
  intros [g t tr q k e] H.
  unfold exec, pause_ffmpeg, ffmpeg_alive, bind, get_globals, ask, emit,
    set_paused, set_ffmpeg, put_globals, ret.
  cbn [globals now trace inq nq env fst snd].
  destruct (0 <? ffmpeg_pid g) eqn:Hp; cbn; [| exact H].
  destruct (env_kill0 e k); cbn.
  - eapply (safe_step _ _ [EvKill (- ffmpeg_pid g) SIGSTOP] H).
    + reflexivity.
    + intros t0 s [Hin | []]. inversion Hin. cbn. split; [lia | reflexivity].
    + intros _. left. reflexivity.
  - apply (safe_quiet _ _ [] H); try reflexivity. cbn. rewrite app_nil_r. reflexivity.
Qed.

Lemma keeps_safe_resume_ffmpeg : keeps_safe resume_ffmpeg.
Proof.
  intros [g t tr q k e] H.
  unfold exec, resume_ffmpeg, ffmpeg_alive, bind, get_globals, ask, emit,
    set_paused, set_ffmpeg, put_globals, ret.
  cbn [globals now trace inq nq env fst snd].
  destruct (0 <? ffmpeg_pid g) eqn:Hp; cbn; [| exact H].
  destruct (env_kill0 e k); cbn.
  - eapply (safe_step _ _ [EvKill (- ffmpeg_pid g) SIGCONT] H).
    + reflexivity.
    + intros t0 s [Hin | []]. inversion Hin. cbn. split; [lia | reflexivity].
    + intros _. left. reflexivity.
  - apply (safe_quiet _ _ [] H); try reflexivity. cbn. rewrite app_nil_r. reflexivity.
Qed.

Lemma keeps_safe_start_playback : keeps_safe start_playback.
Proof.
  intros w H. rewrite start_playback_after_stop.
  apply keeps_safe_stop_playback in H.
  pose proof (stop_playback_untracks w) as Hun.
  set (w1 := exec stop_playback w) in *.
  destruct (start_playback_idle_cases w1 Hun)
    as [_ [[Hg Ht] | [[v [Hg Ht]] | [v [pid [Hp [Hg Ht]]]]]]].
  - apply (safe_quiet w1 _ _ H Ht); [reflexivity | rewrite Hg; reflexivity].
  - apply (safe_quiet w1 _ _ H Ht); [reflexivity | rewrite Hg; reflexivity].
  - apply (safe_step w1 _ _ H Ht).
    + intros t s [Hin | [Hin | [Hin | []]]]; discriminate Hin.
    + intros _. right. rewrite Hg, Ht. cbn [ffmpeg_pid]. exists v.
      apply in_or_app. right. right. left. reflexivity.
Qed.

Create HintDb safe.
#[export] Hint Resolve keeps_safe_ret keeps_safe_get_globals keeps_safe_now
  keeps_safe_ask keeps_safe_log keeps_safe_sleep keeps_safe_set_inq
  keeps_safe_set_pending keeps_safe_set_state keeps_safe_untrack
  keeps_safe_stop_playback keeps_safe_pause_ffmpeg keeps_safe_resume_ffmpeg
  keeps_safe_start_playback : safe.

Ltac safe_step_tac :=
  first
    [ solve [ auto with safe ]
    | apply keeps_safe_emit; reflexivity
    | apply keeps_safe_if
    | apply keeps_safe_bind; [ | intro ] ].

Ltac safe_tac := repeat safe_step_tac.

Lemma keeps_safe_static_frames (n : nat) : keeps_safe (static_frames n).
Proof.
  induction n as [| n IH]; unfold static_frames; fold static_frames; safe_tac.
Qed.
#[export] Hint Resolve keeps_safe_static_frames : safe.

Lemma keeps_safe_static_noise_av : keeps_safe static_noise_av.
Proof. unfold static_noise_av, start_static_audio. safe_tac. Qed.
#[export] Hint Resolve keeps_safe_static_noise_av : safe.

Lemma keeps_safe_do_power_off : keeps_safe do_power_off.
Proof.
  unfold do_power_off, fb_clear, backlight_off, cancel_single_tap. safe_tac.
Qed.

Lemma keeps_safe_do_power_on : keeps_safe do_power_on.
Proof.
  unfold do_power_on, fb_clear, backlight_on, cancel_single_tap. safe_tac.
Qed.

Lemma keeps_safe_do_pause_toggle : keeps_safe do_pause_toggle.
Proof.
  unfold do_pause_toggle. apply keeps_safe_bind; [auto with safe | intro g].
  destruct (state g); safe_tac.
Qed.

Lemma keeps_safe_do_next_episode : keeps_safe do_next_episode.
Proof. unfold do_next_episode. safe_tac. Qed.
#[export] Hint Resolve keeps_safe_do_power_off keeps_safe_do_power_on
  keeps_safe_do_pause_toggle keeps_safe_do_next_episode : safe.

Lemma keeps_safe_reap_one (p : Z) : keeps_safe (reap_one p).
Proof. unfold reap_one. safe_tac. Qed.
#[export] Hint Resolve keeps_safe_reap_one : safe.

Lemma keeps_safe_reap_loop (ps : list Z) : keeps_safe (reap_loop ps).
Proof. induction ps as [| p ps IH]; cbn [reap_loop]; safe_tac. Qed.
#[export] Hint Resolve keeps_safe_reap_loop : safe.

Lemma keeps_safe_reap_children : keeps_safe reap_children.
Proof. unfold reap_children. safe_tac. Qed.

Lemma keeps_safe_handle_event (ev : input_event) (ts0 : touch_state_t) :
  keeps_safe (handle_event ev ts0).
Proof.
  unfold handle_event, on_release, schedule_single_tap, cancel_single_tap.
  safe_tac.
Qed.
#[export] Hint Resolve keeps_safe_reap_children keeps_safe_handle_event : safe.

Lemma keeps_safe_touch_drain (q : list (Z * input_event)) :
  forall ts0 : touch_state_t, keeps_safe (touch_drain q ts0).
Proof.
  induction q as [| [t ev] q IH]; intro ts0; cbn [touch_drain]; safe_tac.
Qed.
#[export] Hint Resolve keeps_safe_touch_drain : safe.

Lemma keeps_safe_tick (lp : Loop) : keeps_safe (tick lp).
Proof.
  unfold tick, switch_poll, switch_is_on, touch_step, touch_read, expire_step,
    cancel_single_tap.
  safe_tac.
  match goal with |- keeps_safe (match ?x with _ => _ end) => destruct x end;
    safe_tac.
Qed.
#[export] Hint Resolve keeps_safe_tick : safe.

Lemma keeps_safe_ticks (n : nat) : forall lp : Loop, keeps_safe (ticks n lp).
Proof. induction n as [| n IH]; intro lp; cbn [ticks]; safe_tac. Qed.

Lemma keeps_safe_main_init : keeps_safe main_init.
Proof.
  unfold main_init, switch_is_on. safe_tac.
  match goal with |- keeps_safe (match ?x with _ => _ end) => destruct x end;
    safe_tac.
Qed.

Lemma signals_safe_world0 (e : Env) (q : list (Z * input_event)) :
  signals_safe (world0 e q).
Proof.
  split.
  - intros a t s b Heq. destruct a; discriminate Heq.
  - cbn. lia.
Qed.

#[export] Hint Resolve keeps_safe_ticks keeps_safe_main_init : safe.

Lemma keeps_safe_main (n : nat) : keeps_safe (main n).
Proof. unfold main, fb_clear. safe_tac. Qed.

(** X17: whatever the environment and the touch events, every signal the
    daemon sends from its start to its exit goes to a process group (a
    negative target), and to the group of a player that the daemon itself
    spawned earlier. *)
Theorem daemon_signals_own_players
    (n : nat) (e : Env) (q : list (Z * input_event))
    (a b : list event) (t : Z) (s : signal) :
  trace (exec (main n) (world0 e q)) = a ++ EvKill t s :: b ->
  t < 0 /\ exists v, In (EvSpawnPlayer v (- t)) a.
Proof.
  destruct (keeps_safe_main n (world0 e q) (signals_safe_world0 e q)) as [Hk _].
  apply Hk.
Qed.

Lemma daemon_signals_own_players_witness :
  let tr := trace (exec (main 34) (world0 (env_demo (fun _ => true)) taps_apart)) in
  tr = firstn 39 tr ++ EvKill (-104) SIGTERM :: skipn 40 tr /\
  exists v, In (EvSpawnPlayer v 104) (firstn 39 tr).
Proof.
  cbv zeta.
  assert (H : trace (exec (main 34) (world0 (env_demo (fun _ => true)) taps_apart)) =
              firstn 39 (trace (exec (main 34) (world0 (env_demo (fun _ => true)) taps_apart)))
              ++ EvKill (-104) SIGTERM
              :: skipn 40 (trace (exec (main 34) (world0 (env_demo (fun _ => true)) taps_apart))))
    by (vm_compute; reflexivity).
  split; [exact H |].
  exact (proj2 (daemon_signals_own_players 34 (env_demo (fun _ => true)) taps_apart
                  _ _ (-104) SIGTERM H)).
Defined.

(** X18: when the loop is left, [main] stops the player, clears the screen
    and closes the touch device if it had been opened: at exit nothing is
    tracked, the trace ends with the clearing of the frame buffer followed
    by that close, and the exit status is 0.  The power state is left as the
    loop left it. *)
Theorem main_cleans_up (n : nat) (w : World) :
  let fd := tfd (eval (lp <- main_init ;; ticks n lp) w) in
  eval (main n) w = 0 /\
  ffmpeg_pid (globals (exec (main n) w)) <= 0 /\
  state (globals (exec (main n) w)) =
    state (globals (exec (lp <- main_init ;; ticks n lp) w)) /\
  exists tr,
    trace (exec (main n) w) =
      tr ++ EvFbClear :: (if 0 <=? fd then [EvClose fd] else []).
Proof.
  cbv zeta.
  set (w1 := exec (lp <- main_init ;; ticks n lp) w).
  set (lp1 := eval (lp <- main_init ;; ticks n lp) w).
  set (closing := if 0 <=? tfd lp1 then emit (EvClose (tfd lp1)) else ret tt).
  assert (Hex : exec (main n) w = exec closing (exec fb_clear (exec stop_playback w1))).
  { unfold main, closing, lp1, w1.
    repeat (rewrite exec_bind; cbv beta). rewrite eval_bind. reflexivity. }
  split; [| split; [| split]].
  - unfold eval, main, bind. destruct (main_init w) as [lp w0].
    destruct (ticks n lp w0) as [lp' w2]. destruct (stop_playback w2) as [u w3].
    destruct (fb_clear w3) as [u' w4].
    destruct ((if 0 <=? tfd lp' then emit (EvClose (tfd lp')) else ret tt) w4).
    reflexivity.
  - rewrite Hex.
    assert (Hc : forall v, globals (exec closing v) = globals v)
      by (intro v; unfold closing; destruct (0 <=? tfd lp1); reflexivity).
    rewrite Hc. apply stop_playback_untracks.
  - rewrite Hex.
    assert (Hc : forall v, globals (exec closing v) = globals v)
      by (intro v; unfold closing; destruct (0 <=? tfd lp1); reflexivity).
    rewrite Hc.
    change (state (globals (exec fb_clear ?v))) with (state (globals v)).
    apply (fr_state _ _ (framed_stop_playback w1)).
  - rewrite Hex. exists (trace (exec stop_playback w1)).
    unfold closing. destruct (0 <=? tfd lp1).
    + change (trace (exec (emit ?e) ?v)) with (trace v ++ [e]).
      change (trace (exec fb_clear ?v)) with (trace v ++ [EvFbClear]).
      rewrite <- app_assoc. reflexivity.
    + reflexivity.
Qed.

(** ** Reading the touch device *)

Lemma handle_event_now_le (ev : input_event) (ts0 : touch_state_t) (w : World) :
  now w <= now (exec (handle_event ev ts0) w).
Proof.
  destruct (is_release_dec ev) as [Hr | Hr].
  - rewrite exec_handle_release by exact Hr.
    destruct (pending_single (globals w)) eqn:Hp.
    + rewrite on_release_pending by exact Hp.
      apply (fr_now _ _ (framed_do_next_episode (exec cancel_single_tap w))).
    + rewrite on_release_idle by exact Hp. cbn. lia.
  - rewrite handle_event_other by exact Hr. lia.
Qed.

Lemma touch_drain_reads_arrived (q : list (Z * input_event)) :
  forall (ts0 : touch_state_t) (w : World),
    let rest := snd (eval (touch_drain q ts0) w) in
    let w' := exec (touch_drain q ts0) w in
    now w <= now w' /\
    (exists done, q = done ++ rest /\ forall t ev, In (t, ev) done -> t <= now w') /\
    match rest with
    | [] => True
    | (t, _) :: _ => now w' < t
    end.
Proof.
  induction q as [| [t ev] q IH]; intros ts0 w; cbv zeta.
  - cbn. split; [lia |]. split; [| exact I]. exists []. split; [reflexivity |].
    intros t ev [].
  - cbn [touch_drain]. rewrite exec_bind, eval_bind. cbv beta.
    change (exec now_ms_monotonic w) with w.
    change (eval now_ms_monotonic w) with (now w).
    destruct (t <=? now w) eqn:Ht.
    + rewrite exec_bind, eval_bind. cbv beta.
      pose proof (handle_event_now_le ev ts0 w) as Hle.
      set (w1 := exec (handle_event ev ts0) w) in *.
      set (ts1 := eval (handle_event ev ts0) w).
      destruct (IH ts1 w1) as [Hn [[done [Hq Hd]] Hrest]].
      split; [lia |]. split; [| exact Hrest].
      exists ((t, ev) :: done). split.
      * cbn. rewrite <- Hq. reflexivity.
      * intros t' ev' [Hin | Hin]; [inversion Hin; subst; lia | apply (Hd t' ev' Hin)].
    + cbn. split; [lia |]. split; [| lia].
      exists []. split; [reflexivity |]. intros t' ev' [].
Qed.

(** X19: the touch read never waits and leaves nothing behind that has
    arrived: the events left in the queue are a suffix of those that were
    there, every event taken had arrived by the time the read ends, and the
    first event left, if any, has not arrived yet. *)
Theorem touch_read_drains (ts0 : touch_state_t) (w : World) :
  let w' := exec (touch_read ts0) w in
  now w <= now w' /\
  (exists done,
     inq w = done ++ inq w' /\ forall t ev, In (t, ev) done -> t <= now w') /\
  match inq w' with
  | [] => True
  | (t, _) :: _ => now w' < t
  end.
Proof.
  cbv zeta. unfold touch_read.
  rewrite exec_bind. cbv beta.
  change (exec (fun v : World => (inq v, v)) w) with w.
  change (eval (fun v : World => (inq v, v)) w) with (inq w).
  rewrite exec_bind. cbv beta. rewrite exec_bind. cbv beta.
  change (exec (ret ?a) ?v) with v.
  change (now (exec (set_inq ?q) ?v)) with (now v).
  change (inq (exec (set_inq ?q) ?v)) with q.
  apply (touch_drain_reads_arrived (inq w) ts0 w).
Qed.

(** ** Power on *)



(** ** Running without a touch device *)

Lemma touch_step_no_device (lp : Loop) (w : World) :
  tfd lp < 0 -> touch_step lp w = (lp, w).
Proof.
  intro H. unfold touch_step, bind, get_globals.
  assert (Hb : (0 <=? tfd lp) = false) by lia. rewrite Hb. reflexivity.
Qed.

Lemma switch_poll_tfd (cur : Z) (lp : Loop) (w : World) :
  tfd (eval (switch_poll cur lp) w) = tfd lp.
Proof.
  unfold eval, switch_poll, bind.
  destruct (cur - last_switch_poll lp >=? SWITCH_POLL_MS); [| reflexivity].
  destruct (switch_is_on w) as [on w1]. cbn.
  match goal with |- context [(if ?b then _ else _) w1] => destruct (b) end.
  - destruct (do_power_off w1). reflexivity.
  - match goal with |- context [(if ?b then _ else _) w1] => destruct (b) end.
    + destruct (do_power_on w1). reflexivity.
    + reflexivity.
Qed.

Lemma switch_poll_untouched (cur : Z) (lp : Loop) (w : World) :
  pending_single (globals w) = false ->
  inq (exec (switch_poll cur lp) w) = inq w /\
  pending_single (globals (exec (switch_poll cur lp) w)) = false /\
  exists d, trace (exec (switch_poll cur lp) w) = trace w ++ d.
Proof.
  intro Hpen. unfold switch_poll.
  destruct (cur - last_switch_poll lp >=? SWITCH_POLL_MS);
    [| repeat split; auto; exists []; rewrite app_nil_r; reflexivity].
  rewrite exec_bind. cbv beta.
  set (on := eval switch_is_on w).
  set (w1 := exec switch_is_on w).
  assert (H1 : inq w1 = inq w /\ globals w1 = globals w /\ trace w1 = trace w).
  { unfold w1, exec, switch_is_on, bind, ask.
    destruct (env_gpio_line (env w) (nq w)); repeat split; reflexivity. }
  destruct H1 as [Hi1 [Hg1 Ht1]].
  rewrite exec_bind. cbv beta.
  change (eval get_globals w1) with (globals w1).
  change (exec get_globals w1) with w1.
  rewrite exec_bind. cbv beta. change (exec (ret ?a) ?v) with v.
  destruct (negb on && negb (tv_state_eqb (state (globals w1)) ST_OFF)).
  - rewrite do_power_off_exec. cbv zeta. cbn [inq globals pending_single trace].
    destruct (framed_stop_playback w1) as [_ Fi _ _ _ _ [d [Ft _]]].
    rewrite Fi, Ft, Ht1. repeat split; auto.
    eexists. rewrite <- app_assoc. reflexivity.
  - destruct (on && tv_state_eqb (state (globals w1)) ST_OFF).
    + rewrite do_power_on_exec. cbv zeta. cbn [inq globals pending_single trace].
      destruct (framed_start_playback (exec fb_clear (exec backlight_on w1)))
        as [_ Fi _ _ _ _ [d [Ft _]]].
      rewrite Fi, Ft.
      change (inq (exec fb_clear (exec backlight_on w1))) with (inq w1).
      change (trace (exec fb_clear (exec backlight_on w1)))
        with ((trace w1 ++ [EvBacklight true]) ++ [EvFbClear]).
      rewrite Ht1. repeat split; auto.
      eexists. rewrite <- !app_assoc. reflexivity.
    + change (exec (ret tt) w1) with w1. rewrite Hg1, Ht1. repeat split; auto.
      exists []. rewrite app_nil_r. reflexivity.
Qed.

Lemma tick_no_device (lp : Loop) (w : World) :
  tfd lp < 0 ->
  pending_single (globals w) = false ->
  tfd (eval (tick lp) w) = tfd lp /\
  inq (exec (tick lp) w) = inq w /\
  pending_single (globals (exec (tick lp) w)) = false /\
  exists d, trace (exec (tick lp) w) = trace w ++ d.
Proof.
  intros Hfd Hpen. unfold tick.
  rewrite exec_bind, eval_bind. cbv beta.
  change (exec now_ms_monotonic w) with w.
  set (cur := eval now_ms_monotonic w).
  rewrite exec_bind, eval_bind. cbv beta.
  destruct (framed_reap_children w) as [_ Fi Fp _ _ _ [d1 [Ft1 _]]].
  set (w1 := exec reap_children w) in *.
  rewrite exec_bind, eval_bind. cbv beta.
  pose proof (switch_poll_tfd cur lp w1) as Htfd.
  destruct (switch_poll_untouched cur lp w1 ltac:(congruence)) as [Hi2 [Hp2 [d2 Ht2]]].
  set (lp1 := eval (switch_poll cur lp) w1) in *.
  set (w2 := exec (switch_poll cur lp) w1) in *.
  rewrite exec_bind, eval_bind. cbv beta.
  assert (Hts : touch_step lp1 w2 = (lp1, w2))
    by (apply touch_step_no_device; lia).
  assert (Hex : exec (touch_step lp1) w2 = w2) by (unfold exec; rewrite Hts; reflexivity).
  assert (Hev : eval (touch_step lp1) w2 = lp1) by (unfold eval; rewrite Hts; reflexivity).
  rewrite Hex, Hev.
  rewrite exec_bind, eval_bind. cbv beta.
  rewrite (expire_step_idle w2 Hp2).
  rewrite exec_bind, eval_bind. cbv beta.
  change (exec (ret ?a) ?v) with v. change (eval (ret ?a) ?v) with a.
  change (inq (exec (ms_sleep 10) w2)) with (inq w2).
  change (globals (exec (ms_sleep 10) w2)) with (globals w2).
  change (trace (exec (ms_sleep 10) w2)) with (trace w2 ++ [EvSleep 10]).
  repeat split; try congruence.
  exists (d1 ++ d2 ++ [EvSleep 10]). rewrite Ht2, Ft1, <- !app_assoc. reflexivity.
Qed.

Lemma ticks_no_device (n : nat) :
  forall (lp : Loop) (w : World),
    tfd lp < 0 ->
    pending_single (globals w) = false ->
    inq (exec (ticks n lp) w) = inq w /\
    pending_single (globals (exec (ticks n lp) w)) = false /\
    exists d, trace (exec (ticks n lp) w) = trace w ++ d.
Proof.
  induction n as [| n IH]; intros lp w Hfd Hpen.
  - repeat split; auto. exists []. rewrite app_nil_r. reflexivity.
  - cbn [ticks]. rewrite exec_bind. cbv beta.
    destruct (tick_no_device lp w Hfd Hpen) as [Ht [Hi [Hp [d1 Hd1]]]].
    destruct (IH (eval (tick lp) w) (exec (tick lp) w) ltac:(lia) Hp)
      as [Hi' [Hp' [d2 Hd2]]].
    repeat split; try congruence.
    exists (d1 ++ d2). rewrite Hd2, Hd1, <- app_assoc. reflexivity.
Qed.

(** X21: when the touch device cannot be opened the daemon keeps running
    on the switch alone: the failure is logged, no touch event is ever
    read and no tap is ever pending, however long the loop runs. *)
Theorem daemon_without_touch_device
    (n : nat) (e : Env) (q : list (Z * input_event)) :
  env_open e O < 0 ->
  inq (run_daemon n e q) = q /\
  pending_single (globals (run_daemon n e q)) = false /\
  In (EvLog ("ERROR opening " ++ TOUCH_DEV)%string) (trace (run_daemon n e q)).
Proof.
  intro Hopen. unfold run_daemon. rewrite exec_bind. cbv beta.
  set (w0 := exec main_init (world0 e q)).
  set (lp0 := eval main_init (world0 e q)).
  assert (Hlt : (env_open e 0 <? 0) = true) by lia.
  assert (Hfd : tfd lp0 = env_open e O).
  { unfold lp0, eval, main_init, bind, ask. cbn [fst snd env nq world0].
    rewrite Hlt.
    destruct (log_console _ _) as [u1 w1]. destruct (switch_is_on w1) as [on w2].
    destruct ((if on then do_power_on else do_power_off) w2). reflexivity. }
  assert (H0 : inq w0 = q /\ pending_single (globals w0) = false /\
               In (EvLog ("ERROR opening " ++ TOUCH_DEV)%string) (trace w0)).
  { unfold w0, main_init.
    rewrite exec_bind. cbv beta. rewrite exec_bind. cbv beta.
    change (eval (ask env_open) (world0 e q)) with (env_open e O). rewrite Hlt.
    rewrite exec_bind. cbv beta. rewrite exec_bind. cbv beta.
    change (exec (ret ?a) ?v) with v.
    set (wl := exec (log_console ("ERROR opening " ++ TOUCH_DEV)%string)
                 (exec (ask env_open) (world0 e q))).
    assert (Hwl : inq wl = q /\
                  In (EvLog ("ERROR opening " ++ TOUCH_DEV)%string) (trace wl)).
    { split; [reflexivity | left; reflexivity]. }
    destruct Hwl as [Hq Hin].
    set (w2 := exec switch_is_on wl).
    assert (H2 : inq w2 = inq wl /\ trace w2 = trace wl).
    { unfold w2, exec, switch_is_on, bind, ask.
      destruct (env_gpio_line (env wl) (nq wl)); split; reflexivity. }
    destruct H2 as [Hi2 Ht2].
    destruct (eval switch_is_on wl).
    - rewrite do_power_on_exec. cbv zeta. cbn [inq globals pending_single trace].
      destruct (framed_start_playback (exec fb_clear (exec backlight_on w2)))
        as [_ Fi _ _ _ _ [d [Ft _]]].
      rewrite Fi, Ft.
      change (inq (exec fb_clear (exec backlight_on w2))) with (inq w2).
      change (trace (exec fb_clear (exec backlight_on w2)))
        with ((trace w2 ++ [EvBacklight true]) ++ [EvFbClear]).
      repeat split.
      + congruence.
      + apply in_or_app. left. apply in_or_app. left.
        apply in_or_app. left. apply in_or_app. left. congruence.
    - rewrite do_power_off_exec. cbv zeta. cbn [inq globals pending_single trace].
      destruct (framed_stop_playback w2) as [_ Fi _ _ _ _ [d [Ft _]]].
      rewrite Fi, Ft. repeat split.
      + congruence.
      + apply in_or_app. left. apply in_or_app. left. congruence. }
  destruct H0 as [Hq0 [Hp0 Hin0]].
  destruct (ticks_no_device n lp0 w0 ltac:(lia) Hp0) as [Hi [Hp [d Hd]]].
  split; [congruence |]. split; [exact Hp |].
  rewrite Hd. apply in_or_app. left. exact Hin0.
Qed.

Lemma daemon_without_touch_device_witness :
  env_open env_no_touch O < 0 /\
  inq (run_daemon 40 env_no_touch taps_apart) = taps_apart.
Proof.
  assert (H : env_open env_no_touch O < 0) by (cbn; lia).
  split; [exact H |].
  exact (proj1 (daemon_without_touch_device 40 env_no_touch taps_apart H)).
Defined.
